(** * TFDeviceSupport: TensorFlow device kinds, used-device bookkeeping and
      device partitioning.

    A shallow embedding of [lib/SILOptimizer/Mandatory/TFDeviceSupport.h]:
    the [DeviceType] enumeration with its string conversions, the
    [GraphFunctionDeviceInfo] record with its boolean indicator array, the
    [DeviceTypeMgr] input iterator over that array, and [markDeviceUsed].

    Conventions.
    - [assert] is modelled as it behaves in an assertion-enabled build: a
      failing condition aborts the call ([Fail (AssertionFailed _)]).
    - [llvm_unreachable] aborts the call ([Fail (Unreachable _)]).
    - [unsigned] values are [Z] with the wrap-around modulo [2^32] written
      out ([wrap32]).
    - the array [bool usedDeviceTypes[NUM_DEVICE_TYPES]] is a [list bool];
      a read or write outside the list is [Fail OutOfBounds].
    - loops run on fuel; the theorems show that the fuel never runs out. *)

From Stdlib Require Import ZArith Lia Sorted.
From stdpp Require Import base functions list strings.

Local Open Scope Z_scope.

(** ** Outcomes of a call *)

Inductive Failure : Type :=
  | AssertionFailed (cond : string)
  | Unreachable (msg : string)
  | OutOfBounds
  | NotAnEnumerator
  | OutOfFuel.

Inductive Result (A : Type) : Type :=
  | Ok (a : A)
  | Fail (f : Failure).

Arguments Ok {A} a.
Arguments Fail {A} f.

Global Instance Result_ret : MRet Result := λ A a, Ok a.

Global Instance Result_bind : MBind Result := λ A B k r,
  match r with
  | Ok a => k a
  | Fail f => Fail f
  end.

Definition assert (cond : bool) (text : string) : Result unit :=
  if cond then Ok tt else Fail (AssertionFailed text).

Definition succeeds {A : Type} (r : Result A) : Prop := ∃ a, r = Ok a.

(** ** The device catalog *)

Module Catalog.

Inductive DeviceType : Type := INVALID | CPU | GPU | TPU | ALL.

Global Instance DeviceType_eq_dec : EqDecision DeviceType.
Proof. solve_decision. Defined.

Definition NUM_DEVICE_TYPES : Z := 5.

(** [(unsigned)device]: the enumerators are numbered in declaration order. *)
Definition to_unsigned (d : DeviceType) : Z :=
  match d with
  | INVALID => 0
  | CPU => 1
  | GPU => 2
  | TPU => 3
  | ALL => 4
  end.

(** [(DeviceType)deviceIdx]: [None] when the value names no enumerator. *)
Definition of_unsigned (i : Z) : option DeviceType :=
  match i with
  | 0 => Some INVALID
  | 1 => Some CPU
  | 2 => Some GPU
  | 3 => Some TPU
  | 4 => Some ALL
  | _ => None
  end.

Definition DEFAULT_CPU_DEVICE : string := "/device:CPU:0".
Definition DEFAULT_GPU_DEVICE : string := "/device:GPU:0".
Definition DEFAULT_TPU_DEVICE : string := "TPU_SYSTEM".
Definition ALL_DEVICES : string := "ALL_DEVICES".

Definition DEVICE_ATTR : string := "__device".
Definition SHAPE_ARRAY_ATTR : string := "__shapes".

(** The four canonical identifiers. *)
Definition canonical_identifiers : list string :=
  [DEFAULT_CPU_DEVICE; DEFAULT_GPU_DEVICE; DEFAULT_TPU_DEVICE; ALL_DEVICES].

Definition getOpDeviceType (device : string) : Result DeviceType :=
  if String.eqb device DEFAULT_CPU_DEVICE then Ok CPU
  else if String.eqb device DEFAULT_GPU_DEVICE then Ok GPU
  else if String.eqb device DEFAULT_TPU_DEVICE then Ok TPU
  else if String.eqb device ALL_DEVICES then Ok ALL
  else Fail (Unreachable "Unknown device type").

Definition getDeviceString (deviceType : DeviceType) : Result string :=
  match deviceType with
  | CPU => Ok DEFAULT_CPU_DEVICE
  | GPU => Ok DEFAULT_GPU_DEVICE
  | TPU => Ok DEFAULT_TPU_DEVICE
  | ALL => Ok ALL_DEVICES
  | INVALID => Fail (Unreachable "Unsupported device type")
  end.

Definition getDeviceShortName (deviceType : DeviceType) : Result string :=
  match deviceType with
  | CPU => Ok "CPU"
  | GPU => Ok "GPU"
  | TPU => Ok "TPU"
  | ALL => Ok "ALL"
  | INVALID => Fail (Unreachable "Unsupported device type")
  end.

End Catalog.

Export Catalog.

(** ** The used-device tracker *)

Module DeviceInfo.

Definition wrap32 (z : Z) : Z := z mod 2 ^ 32.

Definition UINT_MAX : Z := 2 ^ 32 - 1.

(** [a[i]] as an rvalue. *)
Definition read (a : list bool) (i : Z) : Result bool :=
  if bool_decide (0 ≤ i) then
    match a !! Z.to_nat i with
    | Some b => Ok b
    | None => Fail OutOfBounds
    end
  else Fail OutOfBounds.

(** [a[i] = b]. *)
Definition write (a : list bool) (i : Z) (b : bool) : Result (list bool) :=
  if bool_decide (0 ≤ i < Z.of_nat (length a)) then Ok (<[Z.to_nat i := b]> a)
  else Fail OutOfBounds.

Record GraphFunctionDeviceInfo : Type := {
  primaryDeviceType : DeviceType;
  isTPUInfeedEnabled : bool;
  numUsedDeviceTypes : Z;
  usedDeviceTypes : list bool
}.

(** The private constructor. *)
Definition construct (primary : DeviceType) (infeed : bool)
  : Result GraphFunctionDeviceInfo :=
  _ ← assert (bool_decide (primary ≠ ALL)) "primaryDeviceType != DeviceType::ALL";
  let zeroed := replicate (Z.to_nat NUM_DEVICE_TYPES) false in
  used ← write zeroed (to_unsigned primary) true;
  Ok {| primaryDeviceType := primary;
        isTPUInfeedEnabled := infeed;
        numUsedDeviceTypes := 1;
        usedDeviceTypes := used |}.

Definition markDeviceUsed (device : DeviceType) (info : GraphFunctionDeviceInfo)
  : Result GraphFunctionDeviceInfo :=
  _ ← assert (bool_decide (device ≠ INVALID)) "device != DeviceType::INVALID";
  already ← (if bool_decide (device = ALL) then Ok true
             else read (usedDeviceTypes info) (to_unsigned device));
  if already : bool then Ok info
  else
    used ← write (usedDeviceTypes info) (to_unsigned device) true;
    Ok {| primaryDeviceType := primaryDeviceType info;
          isTPUInfeedEnabled := isTPUInfeedEnabled info;
          numUsedDeviceTypes := wrap32 (numUsedDeviceTypes info + 1);
          usedDeviceTypes := used |}.

(** *** [DeviceTypeMgr] and its iterator

    The [const bool *] the manager and its iterators hold is modelled by the
    array it points to; iteration reads the array as it is when the manager
    is obtained. *)

Record iterator : Type := {
  it_usedDeviceTypes : list bool;
  deviceIdx : Z
}.

Definition mk_iterator (used : list bool) (idx : Z) : Result iterator :=
  _ ← assert (bool_decide (0 ≤ idx)) "deviceIdx >= 0";
  _ ← assert (bool_decide (idx ≤ NUM_DEVICE_TYPES)) "deviceIdx <= NUM_DEVICE_TYPES";
  Ok {| it_usedDeviceTypes := used; deviceIdx := idx |}.

(** The loop of [operator++]: one unit of fuel per evaluation of the loop
    condition [++deviceIdx < NUM_DEVICE_TYPES]. *)
Fixpoint increment_loop (fuel : nat) (used : list bool) (idx : Z) : Result Z :=
  match fuel with
  | O => Fail OutOfFuel
  | S fuel' =>
      let idx := wrap32 (idx + 1) in
      if bool_decide (idx < NUM_DEVICE_TYPES) then
        b ← read used idx;
        if negb b then increment_loop fuel' used idx
        else
          let ret := of_unsigned idx in
          _ ← assert (bool_decide (ret ≠ Some INVALID)) "ret != DeviceType::INVALID";
          _ ← assert (bool_decide (ret ≠ Some ALL)) "ret != DeviceType::ALL";
          Ok idx
      else Ok idx
  end.

Definition increment_fuel : nat := S (Z.to_nat NUM_DEVICE_TYPES).

(** [iterator &operator++()]. *)
Definition pre_increment (it : iterator) : Result iterator :=
  idx ← increment_loop increment_fuel (it_usedDeviceTypes it) (deviceIdx it);
  Ok {| it_usedDeviceTypes := it_usedDeviceTypes it; deviceIdx := idx |}.

(** [iterator operator++(int)]: the old value and the advanced iterator. *)
Definition post_increment (it : iterator) : Result (iterator * iterator) :=
  it' ← pre_increment it;
  Ok (it, it').

(** [operator==] and [operator!=]. *)
Definition iterator_eq (a b : iterator) : bool :=
  bool_decide (it_usedDeviceTypes a = it_usedDeviceTypes b)
  && bool_decide (deviceIdx a = deviceIdx b).

Definition iterator_ne (a b : iterator) : bool := negb (iterator_eq a b).

(** [operator*]: [(DeviceType)deviceIdx]. *)
Definition deref (it : iterator) : option DeviceType :=
  of_unsigned (deviceIdx it).

Record DeviceTypeMgr : Type := { mgr_usedDeviceTypes : list bool }.

Definition begin (mgr : DeviceTypeMgr) : Result iterator :=
  ret ← mk_iterator (mgr_usedDeviceTypes mgr) 0;
  pre_increment ret.

Definition end_ (mgr : DeviceTypeMgr) : Result iterator :=
  mk_iterator (mgr_usedDeviceTypes mgr) NUM_DEVICE_TYPES.

Definition getUsedDeviceTypes (info : GraphFunctionDeviceInfo) : DeviceTypeMgr :=
  {| mgr_usedDeviceTypes := usedDeviceTypes info |}.

(** A range-based [for] over a manager: the device types yielded, in order,
    and how the loop ended.  One unit of fuel per test [it != end]. *)
Fixpoint range_loop (fuel : nat) (it last : iterator)
  : list DeviceType * Result unit :=
  match fuel with
  | O => ([], Fail OutOfFuel)
  | S fuel' =>
      if iterator_ne it last then
        match deref it with
        | None => ([], Fail NotAnEnumerator)
        | Some d =>
            match pre_increment it with
            | Ok it' =>
                let rest := range_loop fuel' it' last in
                (d :: rest.1, rest.2)
            | Fail f => ([d], Fail f)
            end
        end
      else ([], Ok tt)
  end.

Definition range_fuel : nat := S (Z.to_nat NUM_DEVICE_TYPES).

Definition iterate (mgr : DeviceTypeMgr) : list DeviceType * Result unit :=
  match begin mgr with
  | Fail f => ([], Fail f)
  | Ok first =>
      match end_ mgr with
      | Fail f => ([], Fail f)
      | Ok last => range_loop range_fuel first last
      end
  end.

(** [begin()] followed by [n] pre-increments. *)
Fixpoint advance (n : nat) (mgr : DeviceTypeMgr) : Result iterator :=
  match n with
  | O => begin mgr
  | S n' => it ← advance n' mgr; pre_increment it
  end.

(** *** Sessions: a construction followed by calls of [markDeviceUsed] *)

Fixpoint markDevicesUsed (devices : list DeviceType)
    (info : GraphFunctionDeviceInfo) : Result GraphFunctionDeviceInfo :=
  match devices with
  | [] => Ok info
  | d :: devices' => info' ← markDeviceUsed d info; markDevicesUsed devices' info'
  end.

(** A tracker constructed with [primary], then marked with [devices] in
    order. *)
Definition session (primary : DeviceType) (infeed : bool)
    (devices : list DeviceType) : Result GraphFunctionDeviceInfo :=
  info ← construct primary infeed;
  markDevicesUsed devices info.

Inductive reachable : GraphFunctionDeviceInfo → Prop :=
  | reachable_construct primary infeed info :
      construct primary infeed = Ok info → reachable info
  | reachable_mark device info info' :
      reachable info → markDeviceUsed device info = Ok info' → reachable info'.

(** The number of [true] entries of the indicator array. *)
Definition count_true (a : list bool) : Z :=
  Z.of_nat (length (filter (λ b : bool, b = true) a)).

(** The indicator of one device type. *)
Definition indicator (info : GraphFunctionDeviceInfo) (d : DeviceType)
  : option bool :=
  usedDeviceTypes info !! Z.to_nat (to_unsigned d).

(** The state [markDeviceUsed] leaves behind when it sets an indicator. *)
Definition marked (device : DeviceType) (info : GraphFunctionDeviceInfo)
  : GraphFunctionDeviceInfo :=
  {| primaryDeviceType := primaryDeviceType info;
     isTPUInfeedEnabled := isTPUInfeedEnabled info;
     numUsedDeviceTypes := numUsedDeviceTypes info + 1;
     usedDeviceTypes :=
       <[Z.to_nat (to_unsigned device) := true]> (usedDeviceTypes info) |}.

(** The invariant of the used-device set. *)
Record used_set_invariant (info : GraphFunctionDeviceInfo) : Prop := {
  primary_indicated : indicator info (primaryDeviceType info) = Some true;
  count_exact : numUsedDeviceTypes info = count_true (usedDeviceTypes info);
  all_not_indicated : indicator info ALL = Some false;
  invalid_not_indicated : indicator info INVALID = Some false
}.

(** What every reachable state satisfies, whatever the primary device. *)
Record tracker_shape (info : GraphFunctionDeviceInfo) : Prop := {
  shape_length : length (usedDeviceTypes info) = Z.to_nat NUM_DEVICE_TYPES;
  shape_primary : indicator info (primaryDeviceType info) = Some true;
  shape_count : numUsedDeviceTypes info = count_true (usedDeviceTypes info);
  shape_all : indicator info ALL = Some false;
  shape_invalid :
    primaryDeviceType info ≠ INVALID → indicator info INVALID = Some false
}.

(** The concrete device types whose indicator is set, in enumeration order. *)
Definition selected (a : list bool) : list DeviceType :=
  filter (λ d, a !! Z.to_nat (to_unsigned d) = Some true) [CPU; GPU; TPU].

(** In this order the enumerators are strictly ascending. *)
Definition precedes (d e : DeviceType) : Prop := to_unsigned d < to_unsigned e.

End DeviceInfo.

Export DeviceInfo.

(** ** The device partitioner

    The header declares [DevicePartitioner] and forward-declares
    [DevicePartitionerImpl]; the algorithm itself is described in section
    4.3 of the specification, which the definitions of this module follow. *)

Module Partitioner.

(** Modelled from the spec: the identity of a value of the source graph
    (the graph representation is not part of the header). *)
Definition ValueId : Type := nat.

(** Modelled from the spec: an operation of the source graph, with its
    resolved device attribute, the values it consumes, the value it
    produces and its optional shape-array pseudo-attribute. *)
Record Operation : Type := {
  op_type : string;
  op_result : ValueId;
  op_device : DeviceType;
  op_operands : list ValueId;
  op_shapes : option string
}.

(** Modelled from the spec: a rewritten operand, either the value as it
    exists in the destination subgraph or the output of a receive. *)
Inductive Operand : Type :=
  | Direct (v : ValueId)
  | Received (transfer : Z).

(** Modelled from the spec: the contents of a subgraph, which are copies of
    source operations and the inserted send and receive operations. *)
Inductive Node : Type :=
  | Copy (op : Operation) (args : list Operand)
  | Send (v : ValueId) (transfer : Z) (dest : DeviceType)
         (shapes : option string)
  | Recv (v : ValueId) (transfer : Z) (src : DeviceType)
         (shapes : option string).

(** Modelled from the spec: the state of one partitioning session, the
    shared transfer-id counter and the subgraph under construction of each
    device. *)
Record PartitionState : Type := {
  nextTensorTransferId : Z;
  subgraphs : DeviceType → list Node
}.

Definition produces (v : ValueId) (n : Node) : bool :=
  match n with
  | Copy op _ => bool_decide (op_result op = v)
  | _ => false
  end.

(** Modelled from the spec: whether a value exists in a subgraph because
    its producer was copied there. *)
Definition produced_in (v : ValueId) (g : list Node) : bool :=
  existsb (produces v) g.

(** Modelled from the spec: the transfer id of the receive that already
    brought a value into a subgraph, if there is one. *)
Fixpoint received_in (v : ValueId) (g : list Node) : option Z :=
  match g with
  | [] => None
  | Recv v' t _ _ :: g' =>
      if bool_decide (v' = v) then Some t else received_in v g'
  | _ :: g' => received_in v g'
  end.

(** Modelled from the spec: appending one node to the subgraph of a
    device. *)
Definition append (d : DeviceType) (n : Node) (st : PartitionState)
  : PartitionState :=
  {| nextTensorTransferId := nextTensorTransferId st;
     subgraphs := <[d := subgraphs st d ++ [n]]> (subgraphs st) |}.

(** Modelled from the spec: a transfer, which inserts a send in the
    producer's subgraph and a matching receive in the consumer's subgraph,
    both carrying the next value of the counter. *)
Definition transfer (src dest : DeviceType) (v : ValueId)
    (shapes : option string) (st : PartitionState) : PartitionState * Z :=
  let t := nextTensorTransferId st in
  let st := append src (Send v t dest shapes) st in
  let st := append dest (Recv v t src shapes) st in
  ({| nextTensorTransferId := t + 1; subgraphs := subgraphs st |}, t).

(** Modelled from the spec: rewriting one operand for a destination device
    (step 3): a value that exists in the destination subgraph is referenced
    directly, an earlier receive of the same value on the same device is
    reused, and otherwise a transfer from the producer's device is
    inserted. *)
Definition rewrite_operand (used : list DeviceType) (dest : DeviceType)
    (shapes : option string) (st : PartitionState) (v : ValueId)
  : Result (PartitionState * Operand) :=
  if produced_in v (subgraphs st dest) then Ok (st, Direct v)
  else
    match received_in v (subgraphs st dest) with
    | Some t => Ok (st, Received t)
    | None =>
        match List.find (λ d, produced_in v (subgraphs st d)) used with
        | Some src =>
            let r := transfer src dest v shapes st in
            Ok (r.1, Received r.2)
        | None => Fail (AssertionFailed "operand has a producer")
        end
    end.

Fixpoint rewrite_operands (used : list DeviceType) (dest : DeviceType)
    (shapes : option string) (st : PartitionState) (vs : list ValueId)
  : Result (PartitionState * list Operand) :=
  match vs with
  | [] => Ok (st, [])
  | v :: vs' =>
      r ← rewrite_operand used dest shapes st v;
      rs ← rewrite_operands used dest shapes r.1 vs';
      Ok (rs.1, r.2 :: rs.2)
  end.

(** Modelled from the spec: copying an operation into the subgraph of one
    destination device with its operands rewritten (steps 2b and 3). *)
Definition place (used : list DeviceType) (op : Operation)
    (st : PartitionState) (dest : DeviceType) : Result PartitionState :=
  r ← rewrite_operands used dest (op_shapes op) st (op_operands op);
  Ok (append dest (Copy op r.2) r.1).

Fixpoint place_all (used : list DeviceType) (op : Operation)
    (st : PartitionState) (dests : list DeviceType) : Result PartitionState :=
  match dests with
  | [] => Ok st
  | d :: dests' => st' ← place used op st d; place_all used op st' dests'
  end.

(** Modelled from the spec: the devices an operation is copied to: its own
    device, or every used device when it is placed on ALL (steps 2a to
    2c). *)
Definition destinations (used : list DeviceType) (op : Operation)
  : Result (list DeviceType) :=
  match op_device op with
  | ALL => Ok used
  | INVALID => Fail (AssertionFailed "device != DeviceType::INVALID")
  | d =>
      if bool_decide (d ∈ used) then Ok [d]
      else Fail (AssertionFailed "device of the operation is in use")
  end.

Definition partition_op (used : list DeviceType) (st : PartitionState)
    (op : Operation) : Result PartitionState :=
  dests ← destinations used op;
  place_all used op st dests.

Fixpoint partition_ops (used : list DeviceType) (st : PartitionState)
    (ops : list Operation) : Result PartitionState :=
  match ops with
  | [] => Ok st
  | op :: ops' => st' ← partition_op used st op; partition_ops used st' ops'
  end.

Definition initial (nextId : Z) : PartitionState :=
  {| nextTensorTransferId := nextId; subgraphs := λ _, [] |}.

(** Modelled from the spec: one partitioning session (section 4.3): one
    subgraph per device type yielded by [getUsedDeviceTypes()], in that
    order, and the value of the shared counter afterwards. *)
Definition partition (ops : list Operation) (deviceInfo : GraphFunctionDeviceInfo)
    (nextId : Z) : Result (list (DeviceType * list Node) * Z) :=
  match iterate (getUsedDeviceTypes deviceInfo) with
  | (used, Ok _) =>
      st ← partition_ops used (initial nextId) ops;
      Ok (map (λ d, (d, subgraphs st d)) used, nextTensorTransferId st)
  | (_, Fail f) => Fail f
  end.

(** Modelled from the spec: the subgraph produced for a device type, empty
    when the session produced none for it. *)
Definition extractFunctionForDevice (out : list (DeviceType * list Node))
    (deviceType : DeviceType) : list Node :=
  match List.find (λ p, bool_decide (p.1 = deviceType)) out with
  | Some p => p.2
  | None => []
  end.

(** The transfers of a session that started with the counter at [first]:
    every send and receive carries an id allocated in this session, no id
    is carried by two sends or by two receives, and sends and receives
    match. *)
Record transfers_paired (first : Z) (st : PartitionState) : Prop := {
  counter_from : first ≤ nextTensorTransferId st;
  send_allocated : ∀ d i v t dest sh,
    subgraphs st d !! i = Some (Send v t dest sh) →
    first ≤ t < nextTensorTransferId st;
  recv_allocated : ∀ d i v t src sh,
    subgraphs st d !! i = Some (Recv v t src sh) →
    first ≤ t < nextTensorTransferId st;
  send_unique : ∀ d i v t dest sh d' i' v' dest' sh',
    subgraphs st d !! i = Some (Send v t dest sh) →
    subgraphs st d' !! i' = Some (Send v' t dest' sh') →
    d = d' ∧ i = i';
  recv_unique : ∀ d i v t src sh d' i' v' src' sh',
    subgraphs st d !! i = Some (Recv v t src sh) →
    subgraphs st d' !! i' = Some (Recv v' t src' sh') →
    d = d' ∧ i = i';
  send_matched : ∀ src i v t dest sh,
    subgraphs st src !! i = Some (Send v t dest sh) →
    ∃ j, subgraphs st dest !! j = Some (Recv v t src sh);
  recv_matched : ∀ dest j v t src sh,
    subgraphs st dest !! j = Some (Recv v t src sh) →
    ∃ i, subgraphs st src !! i = Some (Send v t dest sh)
}.

(** Only the devices of [used] have a subgraph with anything in it. *)
Definition confined (used : list DeviceType) (st : PartitionState) : Prop :=
  ∀ d, d ∉ used → subgraphs st d = [].

End Partitioner.

Export Partitioner.

(** ** Theorems: the device catalog *)

Section CatalogFacts.

Lemma of_to_unsigned (d : DeviceType) : of_unsigned (to_unsigned d) = Some d.
Proof. by destruct d. Qed.

Lemma to_unsigned_range (d : DeviceType) : 0 ≤ to_unsigned d < NUM_DEVICE_TYPES.
Proof. unfold NUM_DEVICE_TYPES; destruct d; simpl; lia. Qed.

Lemma to_unsigned_inj (d e : DeviceType) : to_unsigned d = to_unsigned e → d = e.
Proof. destruct d, e; simpl; intros H; congruence. Qed.

Lemma getOpDeviceType_Ok (s : string) (k : DeviceType) :
  getOpDeviceType s = Ok k → getDeviceString k = Ok s.
Proof.
  unfold getOpDeviceType.
  repeat
    (destruct (String.eqb s _) eqn:E;
     [apply String.eqb_eq in E; subst s; intros [= <-]; reflexivity | clear E]).
  discriminate.
Qed.

End CatalogFacts.

(** C3. For each of CPU, GPU, TPU and ALL, [getDeviceString] returns an
    identifier and [getOpDeviceType] maps that identifier back to the same
    device type. *)
Theorem C3_roundtrip (k : DeviceType) :
  k ≠ INVALID →
  ∃ s, getDeviceString k = Ok s ∧ getOpDeviceType s = Ok k.
Proof.
  intros Hk. destruct k; [congruence | ..]; eexists; split; reflexivity.
Qed.

Lemma C3_roundtrip_witness :
  TPU ≠ INVALID ∧
  ∃ s, getDeviceString TPU = Ok s ∧ getOpDeviceType s = Ok TPU.
Proof. split; [discriminate | apply (C3_roundtrip TPU); discriminate]. Defined.

(** C5. [getOpDeviceType] returns a device type exactly on the four
    canonical identifiers, and on every other string it ends in
    [llvm_unreachable] instead of returning. *)
Theorem C5_getOpDeviceType_exact (s : string) :
  (succeeds (getOpDeviceType s) ↔ s ∈ canonical_identifiers) ∧
  (s ∉ canonical_identifiers →
   getOpDeviceType s = Fail (Unreachable "Unknown device type")).
Proof.
  assert (Hin : succeeds (getOpDeviceType s) → s ∈ canonical_identifiers).
  { intros [k Hk]. apply getOpDeviceType_Ok in Hk.
    unfold canonical_identifiers.
    destruct k; simpl in Hk; inversion Hk; subst s;
      rewrite !elem_of_cons; auto 6. }
  assert (Hout : s ∈ canonical_identifiers → succeeds (getOpDeviceType s)).
  { unfold canonical_identifiers. rewrite !elem_of_cons, elem_of_nil.
    intros [-> | [-> | [-> | [-> | []]]]]; eexists; reflexivity. }
  split; [split; assumption |].
  intros Hnot. unfold getOpDeviceType.
  repeat
    (destruct (String.eqb s _) eqn:E;
     [apply String.eqb_eq in E; subst s; exfalso; apply Hnot;
      unfold canonical_identifiers; rewrite !elem_of_cons; auto 6 | clear E]).
  reflexivity.
Qed.

Lemma C5_getOpDeviceType_exact_witness :
  ("CPU:0" ∉ canonical_identifiers) ∧
  getOpDeviceType "CPU:0" = Fail (Unreachable "Unknown device type").
Proof.
  assert (H : "CPU:0" ∉ canonical_identifiers).
  { unfold canonical_identifiers. rewrite !not_elem_of_cons.
    repeat split; try discriminate. apply not_elem_of_nil. }
  split; [exact H | exact (proj2 (C5_getOpDeviceType_exact "CPU:0") H)].
Defined.

(** C6. [getDeviceString] and [getDeviceShortName] both return a string for
    CPU, GPU, TPU and ALL, and both end in [llvm_unreachable] for INVALID. *)
Theorem C6_string_totality (k : DeviceType) :
  (k ≠ INVALID →
   succeeds (getDeviceString k) ∧ succeeds (getDeviceShortName k)) ∧
  getDeviceString INVALID = Fail (Unreachable "Unsupported device type") ∧
  getDeviceShortName INVALID = Fail (Unreachable "Unsupported device type").
Proof.
  split; [| split; reflexivity].
  intros Hk. destruct k; [congruence | ..]; split; eexists; reflexivity.
Qed.

Lemma C6_string_totality_witness :
  ALL ≠ INVALID ∧
  succeeds (getDeviceString ALL) ∧ succeeds (getDeviceShortName ALL).
Proof.
  split; [discriminate |].
  apply (proj1 (C6_string_totality ALL)). discriminate.
Defined.

(** ** Theorems: the used-device tracker *)

Section ArrayFacts.

Implicit Types (a : list bool) (i : nat).

Lemma wrap32_small (z : Z) : 0 ≤ z ≤ UINT_MAX → wrap32 z = z.
Proof. unfold wrap32, UINT_MAX. intros H. apply Z.mod_small. lia. Qed.

Lemma wrap32_range (z : Z) : 0 ≤ wrap32 z ≤ UINT_MAX.
Proof.
  unfold wrap32, UINT_MAX.
  pose proof (Z.mod_pos_bound z (2 ^ 32) eq_refl). lia.
Qed.

Lemma read_Ok a (d : DeviceType) (b : bool) :
  read a (to_unsigned d) = Ok b ↔ a !! Z.to_nat (to_unsigned d) = Some b.
Proof.
  unfold read. rewrite bool_decide_true by (destruct d; simpl; lia).
  destruct (a !! _); split; intros H; congruence.
Qed.

Lemma write_Ok a (d : DeviceType) (b : bool) :
  (Z.to_nat (to_unsigned d) < length a)%nat →
  write a (to_unsigned d) b = Ok (<[Z.to_nat (to_unsigned d) := b]> a).
Proof.
  intros H. unfold write. rewrite bool_decide_true; [done |].
  pose proof (to_unsigned_range d). lia.
Qed.

Lemma to_unsigned_nat_inj (d e : DeviceType) :
  Z.to_nat (to_unsigned d) = Z.to_nat (to_unsigned e) → d = e.
Proof. destruct d, e; simpl; intros H; try done; lia. Qed.

Lemma count_true_cons (b : bool) a :
  count_true (b :: a) = (if b then 1 else 0) + count_true a.
Proof.
  unfold count_true. destruct b.
  - rewrite filter_cons_True by done. simpl length. lia.
  - rewrite filter_cons_False by done. lia.
Qed.

Lemma count_true_bounds a : 0 ≤ count_true a ≤ Z.of_nat (length a).
Proof.
  unfold count_true.
  pose proof (length_filter (λ b : bool, b = true) a). lia.
Qed.

Lemma count_true_insert a i :
  a !! i = Some false → count_true (<[i := true]> a) = count_true a + 1.
Proof.
  revert i. induction a as [| b a IH]; intros [| i] H; simpl in H; try done.
  - injection H as ->. change (<[0%nat := true]> (false :: a)) with (true :: a).
    rewrite !count_true_cons. lia.
  - change (<[S i := true]> (b :: a)) with (b :: <[i := true]> a).
    rewrite !count_true_cons, (IH i H). lia.
Qed.

End ArrayFacts.

Section TrackerFacts.

Implicit Types (info : GraphFunctionDeviceInfo) (d k : DeviceType).

Lemma construct_Ok (primary : DeviceType) (infeed : bool) info :
  construct primary infeed = Ok info ↔
  primary ≠ ALL ∧
  info = {| primaryDeviceType := primary;
            isTPUInfeedEnabled := infeed;
            numUsedDeviceTypes := 1;
            usedDeviceTypes :=
              <[Z.to_nat (to_unsigned primary) := true]>
                (replicate (Z.to_nat NUM_DEVICE_TYPES) false) |}.
Proof.
  unfold construct. destruct (decide (primary = ALL)) as [-> | Hne].
  - split; [discriminate | intros [[] _]; done].
  - rewrite bool_decide_true by done. simpl.
    rewrite write_Ok by (destruct primary; try done; simpl; lia).
    simpl. split; [intros [= <-]; done | intros [_ ->]; done].
Qed.

Lemma markDeviceUsed_INVALID info :
  markDeviceUsed INVALID info
  = Fail (AssertionFailed "device != DeviceType::INVALID").
Proof. reflexivity. Qed.

Lemma markDeviceUsed_ALL info : markDeviceUsed ALL info = Ok info.
Proof. reflexivity. Qed.

Lemma markDeviceUsed_already k info :
  k ≠ INVALID → indicator info k = Some true → markDeviceUsed k info = Ok info.
Proof.
  intros Hk Hset. unfold markDeviceUsed.
  rewrite (bool_decide_true (k ≠ INVALID)) by done.
  simpl. case_bool_decide; [done |].
  apply read_Ok in Hset. rewrite Hset. done.
Qed.

Lemma markDeviceUsed_fresh k info :
  k ≠ INVALID → k ≠ ALL → indicator info k = Some false →
  markDeviceUsed k info
  = Ok {| primaryDeviceType := primaryDeviceType info;
          isTPUInfeedEnabled := isTPUInfeedEnabled info;
          numUsedDeviceTypes := wrap32 (numUsedDeviceTypes info + 1);
          usedDeviceTypes :=
            <[Z.to_nat (to_unsigned k) := true]> (usedDeviceTypes info) |}.
Proof.
  intros Hk Hall Hclear. unfold markDeviceUsed.
  rewrite (bool_decide_true (k ≠ INVALID)) by done. simpl.
  rewrite (bool_decide_false (k = ALL)) by done.
  pose proof (lookup_lt_Some _ _ _ Hclear) as Hlt.
  apply read_Ok in Hclear. rewrite Hclear. simpl.
  rewrite write_Ok by done. done.
Qed.

(** The ways a call of [markDeviceUsed] can return. *)
Lemma markDeviceUsed_Ok k info info' :
  markDeviceUsed k info = Ok info' →
  k ≠ INVALID ∧
  ((k = ALL ∨ indicator info k = Some true) ∧ info' = info
   ∨ k ≠ ALL ∧ indicator info k = Some false ∧
     info' = {| primaryDeviceType := primaryDeviceType info;
                isTPUInfeedEnabled := isTPUInfeedEnabled info;
                numUsedDeviceTypes := wrap32 (numUsedDeviceTypes info + 1);
                usedDeviceTypes :=
                  <[Z.to_nat (to_unsigned k) := true]> (usedDeviceTypes info) |}).
Proof.
  intros H. destruct (decide (k = INVALID)) as [-> | Hk]; [done |].
  split; [done |].
  destruct (decide (k = ALL)) as [-> | Hall].
  { left. rewrite markDeviceUsed_ALL in H. injection H as <-. auto. }
  destruct (indicator info k) as [[] |] eqn:Hind.
  - left. rewrite markDeviceUsed_already in H by done. injection H as <-. auto.
  - right. rewrite markDeviceUsed_fresh in H by done. injection H as <-. auto.
  - exfalso. unfold markDeviceUsed in H.
    rewrite (bool_decide_true (k ≠ INVALID)) in H by done. simpl in H.
    rewrite (bool_decide_false (k = ALL)) in H by done.
    unfold indicator in Hind. unfold read in H.
    rewrite bool_decide_true in H by (destruct k; simpl; lia).
    rewrite Hind in H. done.
Qed.

Lemma construct_shape (primary : DeviceType) (infeed : bool) info :
  construct primary infeed = Ok info → tracker_shape info.
Proof.
  intros [Hne ->]%construct_Ok.
  destruct primary; [| | | | done]; split; simpl; done.
Qed.

Lemma markDeviceUsed_shape k info info' :
  tracker_shape info → markDeviceUsed k info = Ok info' → tracker_shape info'.
Proof.
  intros [Hlen Hprim Hcount Hall Hinv]
    (Hk & [[_ ->] | (Hnall & Hclear & ->)])%markDeviceUsed_Ok; [done |].
  unfold indicator in *. simpl in *.
  assert (Z.to_nat (to_unsigned k) ≠ Z.to_nat (to_unsigned ALL)) as HkA
    by (intros ?%to_unsigned_nat_inj; done).
  assert (Z.to_nat (to_unsigned k) ≠ Z.to_nat (to_unsigned INVALID)) as HkI
    by (intros ?%to_unsigned_nat_inj; done).
  split; unfold indicator; simpl.
  - by rewrite length_insert.
  - destruct (decide (k = primaryDeviceType info)) as [-> | Hne].
    + apply list_lookup_insert_eq. by eapply lookup_lt_Some.
    + rewrite list_lookup_insert_ne; [done |].
      intros ?%to_unsigned_nat_inj; done.
  - rewrite count_true_insert by done. rewrite <- Hcount.
    apply wrap32_small.
    pose proof (count_true_bounds (usedDeviceTypes info)) as Hb.
    rewrite Hlen in Hb. unfold UINT_MAX, NUM_DEVICE_TYPES in *. lia.
  - by rewrite list_lookup_insert_ne.
  - intros Hp. rewrite list_lookup_insert_ne by done. auto.
Qed.

Lemma markDeviceUsed_primary k info info' :
  markDeviceUsed k info = Ok info' →
  primaryDeviceType info' = primaryDeviceType info.
Proof. intros (_ & [[_ ->] | (_ & _ & ->)])%markDeviceUsed_Ok; done. Qed.

Lemma reachable_shape info : reachable info → tracker_shape info.
Proof.
  induction 1 as [primary infeed info Hc | k info info' _ IH Hm].
  - by eapply construct_shape.
  - by eapply markDeviceUsed_shape.
Qed.

End TrackerFacts.

(** On every state reachable by construction and calls of [markDeviceUsed]
    whose primary device is not INVALID, the invariant of the used-device
    set holds. *)
Lemma reachable_used_set_invariant (info : GraphFunctionDeviceInfo) :
  reachable info →
  primaryDeviceType info ≠ INVALID →
  used_set_invariant info.
Proof.
  intros [Hlen Hprim Hcount Hall Hinv]%reachable_shape Hp.
  split; auto.
Qed.


(** C4. [markDeviceUsed k] fails its assertion when [k] is INVALID; it
    returns the state unchanged when [k] is ALL or the indicator of [k] is
    already set; otherwise it sets the indicator of [k], increments
    [numUsedDeviceTypes] by one and changes nothing else. *)
Theorem C4_markDeviceUsed (info : GraphFunctionDeviceInfo) :
  0 ≤ numUsedDeviceTypes info < UINT_MAX →
  markDeviceUsed INVALID info
    = Fail (AssertionFailed "device != DeviceType::INVALID") ∧
  markDeviceUsed ALL info = Ok info ∧
  ∀ k, k ≠ INVALID → k ≠ ALL →
    (indicator info k = Some true → markDeviceUsed k info = Ok info) ∧
    (indicator info k = Some false →
     markDeviceUsed k info = Ok (marked k info) ∧
     indicator (marked k info) k = Some true ∧
     numUsedDeviceTypes (marked k info) = numUsedDeviceTypes info + 1 ∧
     ∀ d, d ≠ k → indicator (marked k info) d = indicator info d).
Proof.
  intros Hnum. split; [reflexivity |]. split; [reflexivity |].
  intros k Hk Hall. split.
  - by apply markDeviceUsed_already.
  - intros Hclear. repeat split.
    + rewrite markDeviceUsed_fresh by done. unfold marked.
      rewrite wrap32_small by lia. done.
    + unfold indicator, marked; simpl. apply list_lookup_insert_eq.
      by eapply lookup_lt_Some.
    + intros d Hd. unfold indicator, marked; simpl.
      apply list_lookup_insert_ne. intros ?%to_unsigned_nat_inj. done.
Qed.

Lemma C4_markDeviceUsed_witness :
  let info := {| primaryDeviceType := CPU; isTPUInfeedEnabled := false;
                 numUsedDeviceTypes := 1;
                 usedDeviceTypes := [false; true; false; false; false] |} in
  markDeviceUsed GPU info
  = Ok {| primaryDeviceType := CPU; isTPUInfeedEnabled := false;
          numUsedDeviceTypes := 2;
          usedDeviceTypes := [false; true; true; false; false] |}.
Proof.
  intros info.
  assert (Hnum : 0 ≤ numUsedDeviceTypes info < UINT_MAX)
    by (vm_compute; split; [discriminate | reflexivity]).
  destruct (C4_markDeviceUsed info Hnum) as (_ & _ & Hk).
  destruct (Hk GPU) as [_ Hfresh]; [discriminate | discriminate |].
  destruct Hfresh as [Hmark _]; [reflexivity |].
  exact Hmark.
Defined.

(** ** Theorems: iteration over the used device types *)

Section IteratorFacts.

Implicit Types (used a : list bool) (d k : DeviceType).

Lemma array_five a :
  length a = Z.to_nat NUM_DEVICE_TYPES →
  ∃ b0 b1 b2 b3 b4, a = [b0; b1; b2; b3; b4].
Proof.
  destruct a as [| b0 [| b1 [| b2 [| b3 [| b4 [| b5 a]]]]]]; try done.
  intros _. by exists b0, b1, b2, b3, b4.
Qed.

Lemma increment_loop_unfold (fuel : nat) used (idx : Z) :
  increment_loop (S fuel) used idx =
  let idx := wrap32 (idx + 1) in
  if bool_decide (idx < NUM_DEVICE_TYPES) then
    b ← read used idx;
    if negb b then increment_loop fuel used idx
    else
      _ ← assert (bool_decide (of_unsigned idx ≠ Some INVALID))
            "ret != DeviceType::INVALID";
      _ ← assert (bool_decide (of_unsigned idx ≠ Some ALL))
            "ret != DeviceType::ALL";
      Ok idx
  else Ok idx.
Proof. reflexivity. Qed.

(** With the slots of INVALID and ALL clear, [operator++] returns from
    every index: no assertion fires and the loop ends within its fuel. *)
Lemma pre_increment_safe (b1 b2 b3 : bool) (idx : Z) :
  let used := [false; b1; b2; b3; false] in
  ∃ idx',
    pre_increment {| it_usedDeviceTypes := used; deviceIdx := idx |}
    = Ok {| it_usedDeviceTypes := used; deviceIdx := idx' |}.
Proof.
  intros used. unfold pre_increment, increment_fuel. simpl it_usedDeviceTypes.
  simpl deviceIdx. change (Z.to_nat NUM_DEVICE_TYPES) with 5%nat.
  rewrite increment_loop_unfold.
  pose proof (wrap32_range (idx + 1)) as Hr.
  generalize dependent (wrap32 (idx + 1)). intros j Hj. cbv zeta.
  destruct (decide (j < NUM_DEVICE_TYPES)) as [Hlt | Hge].
  - unfold NUM_DEVICE_TYPES in Hlt.
    assert (j = 0 ∨ j = 1 ∨ j = 2 ∨ j = 3 ∨ j = 4) as Hcases by lia.
    subst used.
    destruct Hcases as [-> | [-> | [-> | [-> | ->]]]];
      destruct b1, b2, b3; eexists; reflexivity.
  - rewrite bool_decide_false by done. by eexists.
Qed.

(** [operator++] always leaves its loop: on an array of five slots the fuel
    never runs out and no read falls outside the array, wherever the
    iterator stands. *)
Lemma pre_increment_total (b0 b1 b2 b3 b4 : bool) (idx : Z) :
  let used := [b0; b1; b2; b3; b4] in
  (∃ idx',
     pre_increment {| it_usedDeviceTypes := used; deviceIdx := idx |}
     = Ok {| it_usedDeviceTypes := used; deviceIdx := idx' |})
  ∨ (∃ text,
       pre_increment {| it_usedDeviceTypes := used; deviceIdx := idx |}
       = Fail (AssertionFailed text)).
Proof.
  intros used. unfold pre_increment, increment_fuel. simpl it_usedDeviceTypes.
  simpl deviceIdx. change (Z.to_nat NUM_DEVICE_TYPES) with 5%nat.
  rewrite increment_loop_unfold.
  pose proof (wrap32_range (idx + 1)) as Hr.
  generalize dependent (wrap32 (idx + 1)). intros j Hj. cbv zeta.
  destruct (decide (j < NUM_DEVICE_TYPES)) as [Hlt | Hge].
  - unfold NUM_DEVICE_TYPES in Hlt.
    assert (j = 0 ∨ j = 1 ∨ j = 2 ∨ j = 3 ∨ j = 4) as Hcases by lia.
    subst used.
    destruct Hcases as [-> | [-> | [-> | [-> | ->]]]];
      destruct b0, b1, b2, b3, b4;
      first [left; eexists; reflexivity | right; eexists; reflexivity].
  - rewrite bool_decide_false by done. left. by eexists.
Qed.

(** The closed form of a range-based [for] over an array of five slots. *)
Lemma iterate_five (b0 b1 b2 b3 b4 : bool) :
  iterate {| mgr_usedDeviceTypes := [b0; b1; b2; b3; b4] |}
  = (selected [b0; b1; b2; b3; b4],
     if b4 then Fail (AssertionFailed "ret != DeviceType::ALL") else Ok tt).
Proof. destruct b0, b1, b2, b3, b4; reflexivity. Qed.

Lemma elem_of_selected a d :
  d ∈ selected a ↔
  a !! Z.to_nat (to_unsigned d) = Some true ∧ d ≠ ALL ∧ d ≠ INVALID.
Proof.
  unfold selected. rewrite list_elem_of_filter, !elem_of_cons, elem_of_nil.
  split.
  - intros [H [-> | [-> | [-> | []]]]]; done.
  - intros (H & HA & HI). split; [done |]. destruct d; auto.
Qed.

Lemma StronglySorted_filter {A : Type} (R : A → A → Prop) (P : A → Prop)
    `{∀ x, Decision (P x)} (l : list A) :
  StronglySorted R l → StronglySorted R (filter P l).
Proof.
  induction 1 as [| x l Hl IH Hx].
  - constructor.
  - rewrite filter_cons. destruct (decide (P x)); [| done].
    constructor; [done |].
    rewrite Forall_forall in Hx |- *.
    intros y [_ Hy]%list_elem_of_filter. auto.
Qed.

Lemma selected_sorted a : StronglySorted precedes (selected a).
Proof.
  apply StronglySorted_filter.
  repeat constructor; unfold precedes; simpl; lia.
Qed.

Lemma selected_NoDup a : NoDup (selected a).
Proof.
  apply NoDup_filter.
  rewrite !NoDup_cons, !not_elem_of_cons.
  repeat split; try done; try apply not_elem_of_nil. apply NoDup_nil_2.
Qed.

Lemma selected_count (b1 b2 b3 : bool) :
  Z.of_nat (length (selected [false; b1; b2; b3; false]))
  = count_true [false; b1; b2; b3; false].
Proof. destruct b1, b2, b3; reflexivity. Qed.

End IteratorFacts.

(** C8. Whatever the five indicator slots hold, even with the slot of
    INVALID set, a range-based [for] over the manager never yields INVALID;
    nor does the loop ever stop on the assertion that excludes INVALID:
    [begin()] steps past index 0 and no increment of the loop reads it. *)
Theorem C8_never_yields_INVALID (used : list bool) :
  length used = Z.to_nat NUM_DEVICE_TYPES →
  (INVALID ∉ (iterate {| mgr_usedDeviceTypes := used |}).1) ∧
  (iterate {| mgr_usedDeviceTypes := used |}).2
  ≠ Fail (AssertionFailed "ret != DeviceType::INVALID").
Proof.
  intros (b0 & b1 & b2 & b3 & b4 & ->)%array_five.
  rewrite iterate_five. simpl. split.
  - rewrite elem_of_selected. intros (_ & _ & H). done.
  - destruct b4; discriminate.
Qed.

Lemma C8_never_yields_INVALID_witness :
  iterate {| mgr_usedDeviceTypes := [true; true; false; true; false] |}
    = ([CPU; TPU], Ok tt) ∧
  (INVALID ∉ (iterate {| mgr_usedDeviceTypes := [true; true; false; true; false] |}).1) ∧
  (iterate {| mgr_usedDeviceTypes := [true; true; false; true; false] |}).2
  ≠ Fail (AssertionFailed "ret != DeviceType::INVALID").
Proof.
  split; [reflexivity |].
  apply (C8_never_yields_INVALID [true; true; false; true; false]).
  reflexivity.
Defined.

(** C9. When the slots of INVALID and ALL are clear, no assertion of
    [operator++] fires: [begin()] and every number of increments after it
    return an iterator, and the range-based [for] runs to [end()]. *)
Theorem C9_assertions_never_fire (used : list bool) :
  length used = Z.to_nat NUM_DEVICE_TYPES →
  used !! Z.to_nat (to_unsigned INVALID) = Some false →
  used !! Z.to_nat (to_unsigned ALL) = Some false →
  (∀ n, succeeds (advance n {| mgr_usedDeviceTypes := used |})) ∧
  succeeds (end_ {| mgr_usedDeviceTypes := used |}) ∧
  (iterate {| mgr_usedDeviceTypes := used |}).2 = Ok tt.
Proof.
  intros (b0 & b1 & b2 & b3 & b4 & ->)%array_five [= ->] [= ->].
  split; [| split].
  - assert (∀ n, ∃ idx,
      advance n {| mgr_usedDeviceTypes := [false; b1; b2; b3; false] |}
      = Ok {| it_usedDeviceTypes := [false; b1; b2; b3; false];
              deviceIdx := idx |}) as Hadv.
    { induction n as [| n [idx IH]].
      - apply (pre_increment_safe b1 b2 b3 0).
      - simpl. rewrite IH. apply (pre_increment_safe b1 b2 b3 idx). }
    intros n. destruct (Hadv n) as [idx ->]. by eexists.
  - by eexists.
  - by rewrite iterate_five.
Qed.

Lemma C9_assertions_never_fire_witness :
  (∀ n, succeeds
          (advance n {| mgr_usedDeviceTypes := [false; true; false; true; false] |})) ∧
  succeeds (end_ {| mgr_usedDeviceTypes := [false; true; false; true; false] |}) ∧
  (iterate {| mgr_usedDeviceTypes := [false; true; false; true; false] |}).2
  = Ok tt.
Proof.
  apply (C9_assertions_never_fire [false; true; false; true; false]);
    reflexivity.
Defined.

(** ** Theorems: sessions of the tracker *)

Section SessionFacts.

Implicit Types (info : GraphFunctionDeviceInfo) (d k : DeviceType).
Implicit Types (devices : list DeviceType).

Lemma shape_indicator_is_Some info d :
  tracker_shape info → is_Some (indicator info d).
Proof.
  intros Hs. apply lookup_lt_is_Some. rewrite (shape_length _ Hs).
  unfold NUM_DEVICE_TYPES. destruct d; simpl; lia.
Qed.

Lemma markDeviceUsed_succeeds k info :
  tracker_shape info → k ≠ INVALID → succeeds (markDeviceUsed k info).
Proof.
  intros Hs Hk. unfold succeeds. destruct (decide (k = ALL)) as [-> | Hall].
  { exists info. reflexivity. }
  destruct (shape_indicator_is_Some info k Hs) as [[] Hb].
  - eexists. by apply markDeviceUsed_already.
  - eexists. by apply markDeviceUsed_fresh.
Qed.

Lemma markDeviceUsed_indicator k info info' d :
  markDeviceUsed k info = Ok info' → d ≠ ALL →
  indicator info' d = Some true ↔ indicator info d = Some true ∨ d = k.
Proof.
  intros (Hk & [[Hcase ->] | (Hnall & Hclear & ->)])%markDeviceUsed_Ok Hd.
  - split; [auto |]. intros [H | ->]; [done |].
    destruct Hcase as [-> | H]; done.
  - unfold indicator in *; simpl. destruct (decide (d = k)) as [-> | Hne].
    + rewrite list_lookup_insert_eq by (by eapply lookup_lt_Some).
      split; auto.
    + rewrite list_lookup_insert_ne by (intros ?%to_unsigned_nat_inj; done).
      split; [auto |]. intros [H | H]; done.
Qed.

Lemma construct_indicator (primary : DeviceType) (infeed : bool) info d :
  construct primary infeed = Ok info →
  indicator info d = Some true ↔ d = primary.
Proof.
  intros [Hne ->]%construct_Ok. unfold indicator; simpl.
  destruct primary, d; simpl; split; intros H; done.
Qed.

Lemma markDevicesUsed_succeeds devices info :
  tracker_shape info → INVALID ∉ devices →
  succeeds (markDevicesUsed devices info).
Proof.
  revert info. induction devices as [| k devices IH]; intros info Hs Hni.
  - by eexists.
  - apply not_elem_of_cons in Hni as [Hk Hni].
    destruct (markDeviceUsed_succeeds k info Hs) as [info' Hm]; [done |].
    simpl. rewrite Hm. simpl. apply IH; [| done].
    by eapply markDeviceUsed_shape.
Qed.

Lemma bind_Ok {A B : Type} (r : Result A) (f : A → Result B) (b : B) :
  r ≫= f = Ok b ↔ ∃ a, r = Ok a ∧ f a = Ok b.
Proof.
  destruct r as [a | e]; simpl.
  - split; [eauto |]. by intros (? & [= <-] & ?).
  - split; [done |]. by intros (? & ? & _).
Qed.

Lemma markDevicesUsed_reachable devices info info' :
  reachable info → markDevicesUsed devices info = Ok info' → reachable info'.
Proof.
  revert info. induction devices as [| k devices IH]; intros info Hr; simpl.
  - by intros [= <-].
  - intros (info1 & Hm & Hrest)%bind_Ok.
    apply (IH info1); [| done]. by eapply reachable_mark.
Qed.

Lemma markDevicesUsed_primary devices info info' :
  markDevicesUsed devices info = Ok info' →
  primaryDeviceType info' = primaryDeviceType info.
Proof.
  revert info. induction devices as [| k devices IH]; intros info; simpl.
  - by intros [= <-].
  - intros (info1 & Hm & Hrest)%bind_Ok.
    rewrite (IH _ Hrest). by eapply markDeviceUsed_primary.
Qed.

Lemma markDevicesUsed_indicator devices info info' d :
  markDevicesUsed devices info = Ok info' → d ≠ ALL →
  indicator info' d = Some true ↔ indicator info d = Some true ∨ d ∈ devices.
Proof.
  revert info. induction devices as [| k devices IH]; intros info; simpl.
  - intros [= <-] _. rewrite elem_of_nil. tauto.
  - intros (info1 & Hm & Hrest)%bind_Ok Hd.
    rewrite (IH _ Hrest Hd), (markDeviceUsed_indicator _ _ _ _ Hm Hd).
    rewrite elem_of_cons. tauto.
Qed.

Lemma session_Ok (primary : DeviceType) (infeed : bool) devices info :
  session primary infeed devices = Ok info →
  reachable info ∧
  primaryDeviceType info = primary ∧
  ∀ d, d ≠ ALL → indicator info d = Some true ↔ d ∈ primary :: devices.
Proof.
  unfold session. intros (info0 & Hc & Hm)%bind_Ok. split; [| split].
  - eapply markDevicesUsed_reachable; [| done]. by econstructor.
  - rewrite (markDevicesUsed_primary _ _ _ Hm).
    apply construct_Ok in Hc as [_ ->]. done.
  - intros d Hd.
    rewrite (markDevicesUsed_indicator _ _ _ _ Hm Hd),
      (construct_indicator _ _ _ _ Hc), elem_of_cons. tauto.
Qed.

Lemma session_succeeds (primary : DeviceType) (infeed : bool) devices :
  primary ≠ ALL → INVALID ∉ devices →
  succeeds (session primary infeed devices).
Proof.
  intros Hp Hni. unfold session.
  destruct (construct primary infeed) as [info0 | e] eqn:Hc.
  - simpl. apply markDevicesUsed_succeeds; [| done]. by eapply construct_shape.
  - exfalso. unfold construct in Hc.
    rewrite bool_decide_true in Hc by done. simpl in Hc.
    rewrite write_Ok in Hc by (destruct primary; try done; simpl; lia).
    done.
Qed.

(** The loop over a reachable tracker runs to the end and yields the
    concrete device types whose indicator is set. *)
Lemma reachable_iterate info :
  reachable info →
  iterate (getUsedDeviceTypes info) = (selected (usedDeviceTypes info), Ok tt).
Proof.
  intros Hs%reachable_shape.
  destruct (array_five _ (shape_length _ Hs)) as (b0 & b1 & b2 & b3 & b4 & Ha).
  pose proof (shape_all _ Hs) as Hall. unfold indicator in Hall.
  unfold getUsedDeviceTypes. rewrite Ha in Hall |- *.
  injection Hall as ->. apply iterate_five.
Qed.

End SessionFacts.

(** What a session yields, whatever was marked: the loop over
    [getUsedDeviceTypes()] runs to the end and yields the marked device
    types and the primary that are neither ALL nor INVALID, each once, in
    strictly ascending enumeration order. *)
Lemma session_enumeration (primary : DeviceType) (infeed : bool)
    (S : list DeviceType) :
  primary ≠ ALL → INVALID ∉ S →
  ∃ info l,
    session primary infeed S = Ok info ∧
    iterate (getUsedDeviceTypes info) = (l, Ok tt) ∧
    (∀ d, d ∈ l ↔ d ∈ primary :: S ∧ d ≠ ALL ∧ d ≠ INVALID) ∧
    StronglySorted precedes l ∧
    NoDup l ∧
    (ALL ∉ l) ∧ (INVALID ∉ l).
Proof.
  intros Hp Hni.
  destruct (session_succeeds primary infeed S Hp Hni) as [info Hs].
  destruct (session_Ok _ _ _ _ Hs) as (Hr & _ & Hind).
  exists info, (selected (usedDeviceTypes info)).
  split; [done |]. split; [by apply reachable_iterate |].
  split; [| split; [apply selected_sorted | split; [apply selected_NoDup |]]].
  - intros d. rewrite elem_of_selected. split.
    + intros (H & HA & HI). split; [| done]. by apply Hind.
    + intros (H & HA & HI). split; [| done]. by apply Hind.
  - split; rewrite elem_of_selected; intros (_ & HA & HI); done.
Qed.

(** C2. After construction with a primary device (CPU, GPU or TPU) and
    marking a set [S] of device types used (CPU, GPU or TPU: INVALID is
    rejected and ALL is never marked), the range-based [for] over
    [getUsedDeviceTypes()] runs from [begin()] to [end()] and yields exactly
    the device types of [S] and the primary, each once, in strictly
    ascending enumeration order, and never ALL or INVALID. *)
Theorem C2_enumeration (primary : DeviceType) (infeed : bool)
    (S : list DeviceType) :
  primary ≠ INVALID → primary ≠ ALL →
  INVALID ∉ S → ALL ∉ S →
  ∃ info l,
    session primary infeed S = Ok info ∧
    iterate (getUsedDeviceTypes info) = (l, Ok tt) ∧
    (∀ d, d ∈ l ↔ d ∈ primary :: S) ∧
    StronglySorted precedes l ∧
    NoDup l ∧
    (ALL ∉ l) ∧ (INVALID ∉ l).
Proof.
  intros HpI HpA HSI HSA.
  destruct (session_enumeration primary infeed S HpA HSI)
    as (info & l & Hs & Hit & Hmem & Hsorted & Hnodup & HA & HI).
  exists info, l. repeat (split; [done |]). split; [| done].
  intros d. rewrite Hmem. split; [by intros [H _] |].
  intros Hd. split; [done |].
  apply elem_of_cons in Hd as [-> | Hd]; [done |].
  split; intros ->; done.
Qed.

Lemma C2_enumeration_witness :
  ∃ info l,
    session CPU false [TPU; GPU; TPU] = Ok info ∧
    iterate (getUsedDeviceTypes info) = (l, Ok tt) ∧
    (∀ d, d ∈ l ↔ d ∈ CPU :: [TPU; GPU; TPU]) ∧
    StronglySorted precedes l ∧
    NoDup l ∧
    (ALL ∉ l) ∧ (INVALID ∉ l).
Proof.
  apply (C2_enumeration CPU false [TPU; GPU; TPU]); try discriminate;
    rewrite !not_elem_of_cons; repeat split; try discriminate;
    apply not_elem_of_nil.
Defined.

(** C10. After construction with a primary device other than INVALID and
    ALL and any calls of [markDeviceUsed] with arguments other than INVALID,
    the range-based [for] over [getUsedDeviceTypes()] yields as many device
    types as [numUsedDeviceTypes] says. *)
Theorem C10_yield_count (primary : DeviceType) (infeed : bool)
    (devices : list DeviceType) :
  primary ≠ INVALID → primary ≠ ALL → INVALID ∉ devices →
  ∃ info l,
    session primary infeed devices = Ok info ∧
    iterate (getUsedDeviceTypes info) = (l, Ok tt) ∧
    Z.of_nat (length l) = numUsedDeviceTypes info.
Proof.
  intros HpI HpA Hni.
  destruct (session_succeeds primary infeed devices HpA Hni) as [info Hs].
  destruct (session_Ok _ _ _ _ Hs) as (Hr & Hprim & _).
  exists info, (selected (usedDeviceTypes info)).
  split; [done |]. split; [by apply reachable_iterate |].
  pose proof (reachable_shape _ Hr) as Hshape.
  destruct (array_five _ (shape_length _ Hshape))
    as (b0 & b1 & b2 & b3 & b4 & Ha).
  pose proof (shape_all _ Hshape) as Hall.
  pose proof (shape_invalid _ Hshape) as Hinv.
  rewrite Hprim in Hinv. specialize (Hinv HpI).
  rewrite (shape_count _ Hshape).
  unfold indicator in Hall, Hinv. rewrite Ha in Hall, Hinv |- *.
  injection Hall as ->. injection Hinv as ->.
  apply selected_count.
Qed.

Lemma C10_yield_count_witness :
  ∃ info l,
    session GPU true [CPU; ALL; GPU] = Ok info ∧
    iterate (getUsedDeviceTypes info) = (l, Ok tt) ∧
    Z.of_nat (length l) = numUsedDeviceTypes info.
Proof.
  apply (C10_yield_count GPU true [CPU; ALL; GPU]); try discriminate.
  rewrite !not_elem_of_cons. repeat split; try discriminate.
  apply not_elem_of_nil.
Defined.

(** ** Theorems: the device partitioner *)

Section PartitionerFacts.

Implicit Types (st : PartitionState) (d src dest : DeviceType).
Implicit Types (used dests : list DeviceType) (n : Node).

Lemma append_lookup d n st d' (i : nat) (x : Node) :
  subgraphs (append d n st) d' !! i = Some x ↔
  subgraphs st d' !! i = Some x
  ∨ (d' = d ∧ i = length (subgraphs st d) ∧ x = n).
Proof.
  unfold append; simpl. destruct (decide (d = d')) as [<- | Hne].
  - rewrite fn_lookup_insert, lookup_snoc_Some. split.
    + intros [[_ H] | [-> ->]]; auto.
    + intros [H | (_ & -> & ->)]; [| auto].
      left. split; [by eapply lookup_lt_Some | done].
  - rewrite fn_lookup_insert_ne by done. split; [auto |].
    intros [H | (-> & _)]; done.
Qed.

Lemma transfer_counter src dest (v : ValueId) (sh : option string) st :
  nextTensorTransferId (transfer src dest v sh st).1
  = nextTensorTransferId st + 1.
Proof. reflexivity. Qed.

Lemma transfer_id src dest (v : ValueId) (sh : option string) st :
  (transfer src dest v sh st).2 = nextTensorTransferId st.
Proof. reflexivity. Qed.

(** A transfer adds one send at the end of the producer's subgraph and one
    receive at the end of the consumer's, and moves nothing else. *)
Lemma transfer_lookup src dest (v : ValueId) (sh : option string) st d
    (i : nat) (x : Node) :
  subgraphs (transfer src dest v sh st).1 d !! i = Some x ↔
  subgraphs st d !! i = Some x
  ∨ (d = src ∧ i = length (subgraphs st src)
     ∧ x = Send v (nextTensorTransferId st) dest sh)
  ∨ (d = dest
     ∧ i = length (subgraphs
                     (append src (Send v (nextTensorTransferId st) dest sh) st)
                     dest)
     ∧ x = Recv v (nextTensorTransferId st) src sh).
Proof.
  unfold transfer. cbv zeta. cbn [fst subgraphs].
  rewrite !append_lookup. simpl. tauto.
Qed.

Lemma transfer_paired (first : Z) src dest (v : ValueId) (sh : option string) st :
  transfers_paired first st →
  transfers_paired first (transfer src dest v sh st).1.
Proof.
  intros [Hfrom Hsa Hra Hsu Hru Hsm Hrm].
  split; rewrite ?transfer_counter.
  - lia.
  - intros d i v0 t dest0 sh0 H.
    apply transfer_lookup in H as [H | [(_ & _ & H) | (_ & _ & H)]];
      simplify_eq; [| lia].
    specialize (Hsa _ _ _ _ _ _ H). lia.
  - intros d i v0 t src0 sh0 H.
    apply transfer_lookup in H as [H | [(_ & _ & H) | (_ & _ & H)]];
      simplify_eq; [| lia].
    specialize (Hra _ _ _ _ _ _ H). lia.
  - intros d i v0 t dest0 sh0 d' i' v' dest' sh' H H'.
    apply transfer_lookup in H as [H | [(Hd & Hi & H) | (_ & _ & H)]];
      apply transfer_lookup in H' as [H' | [(Hd' & Hi' & H') | (_ & _ & H')]];
      simplify_eq; eauto.
    + specialize (Hsa _ _ _ _ _ _ H). lia.
    + specialize (Hsa _ _ _ _ _ _ H'). lia.
  - intros d i v0 t src0 sh0 d' i' v' src' sh' H H'.
    apply transfer_lookup in H as [H | [(_ & _ & H) | (Hd & Hi & H)]];
      apply transfer_lookup in H' as [H' | [(_ & _ & H') | (Hd' & Hi' & H')]];
      simplify_eq; eauto.
    + specialize (Hra _ _ _ _ _ _ H). lia.
    + specialize (Hra _ _ _ _ _ _ H'). lia.
  - intros src0 i v0 t dest0 sh0 H.
    apply transfer_lookup in H as [H | [(Hd & Hi & H) | (_ & _ & H)]];
      simplify_eq.
    + destruct (Hsm _ _ _ _ _ _ H) as [j Hj]. exists j.
      apply transfer_lookup. auto.
    + eexists. apply transfer_lookup. right; right. done.
  - intros dest0 j v0 t src0 sh0 H.
    apply transfer_lookup in H as [H | [(_ & _ & H) | (Hd & Hi & H)]];
      simplify_eq.
    + destruct (Hrm _ _ _ _ _ _ H) as [i Hi]. exists i.
      apply transfer_lookup. auto.
    + eexists. apply transfer_lookup. right; left. done.
Qed.

Lemma append_Copy_paired (first : Z) d (op : Operation) (args : list Operand) st :
  transfers_paired first st →
  transfers_paired first (append d (Copy op args) st).
Proof.
  intros [Hfrom Hsa Hra Hsu Hru Hsm Hrm].
  assert (Hs : ∀ d' i v t dest sh,
    subgraphs (append d (Copy op args) st) d' !! i = Some (Send v t dest sh) ↔
    subgraphs st d' !! i = Some (Send v t dest sh)).
  { intros. rewrite append_lookup. split; [| auto].
    intros [H | (_ & _ & [=])]; done. }
  assert (Hr : ∀ d' i v t src sh,
    subgraphs (append d (Copy op args) st) d' !! i = Some (Recv v t src sh) ↔
    subgraphs st d' !! i = Some (Recv v t src sh)).
  { intros. rewrite append_lookup. split; [| auto].
    intros [H | (_ & _ & [=])]; done. }
  split; simpl nextTensorTransferId; [done | ..].
  - intros d' i v t dest sh H%Hs. eauto.
  - intros d' i v t src sh H%Hr. eauto.
  - intros d1 i v t dest sh d2 i' v' dest' sh' H%Hs H'%Hs. eauto.
  - intros d1 i v t src sh d2 i' v' src' sh' H%Hr H'%Hr. eauto.
  - intros src i v t dest sh H%Hs. destruct (Hsm _ _ _ _ _ _ H) as [j Hj].
    exists j. by apply Hr.
  - intros dest j v t src sh H%Hr. destruct (Hrm _ _ _ _ _ _ H) as [i Hi].
    exists i. by apply Hs.
Qed.

Lemma append_confined used d n st :
  d ∈ used → confined used st → confined used (append d n st).
Proof.
  intros Hd Hc d' Hd'. unfold append; simpl.
  rewrite fn_lookup_insert_ne by (intros ->; done). by apply Hc.
Qed.

Lemma transfer_confined used src dest (v : ValueId) (sh : option string) st :
  src ∈ used → dest ∈ used → confined used st →
  confined used (transfer src dest v sh st).1.
Proof.
  intros Hs Hd Hc. unfold transfer.
  intros d' Hd'. cbn [fst subgraphs].
  eapply (append_confined used dest); [done | | done].
  by apply append_confined.
Qed.

Lemma rewrite_operand_inv (first : Z) used dest (sh : option string) st
    (v : ValueId) (r : PartitionState * Operand) :
  rewrite_operand used dest sh st v = Ok r → dest ∈ used →
  transfers_paired first st ∧ confined used st →
  transfers_paired first r.1 ∧ confined used r.1.
Proof.
  unfold rewrite_operand. intros H Hd [Hp Hc].
  destruct (produced_in v (subgraphs st dest)); [by injection H as <- |].
  destruct (received_in v (subgraphs st dest)); [by injection H as <- |].
  destruct (List.find _ used) as [src |] eqn:Hfind; [| done].
  injection H as <-. cbn [fst].
  apply find_some in Hfind as [Hin%list_elem_of_In _].
  split; [by apply transfer_paired | by apply transfer_confined].
Qed.

Lemma rewrite_operands_inv (first : Z) used dest (sh : option string)
    (vs : list ValueId) st (r : PartitionState * list Operand) :
  rewrite_operands used dest sh st vs = Ok r → dest ∈ used →
  transfers_paired first st ∧ confined used st →
  transfers_paired first r.1 ∧ confined used r.1.
Proof.
  revert st r. induction vs as [| v vs IH]; intros st r; simpl.
  - by intros [= <-].
  - intros (r1 & H1 & (rs & Hrs & [= <-])%bind_Ok)%bind_Ok Hd Hinv.
    cbn [fst]. apply (IH _ _ Hrs Hd).
    by eapply rewrite_operand_inv.
Qed.

Lemma place_inv (first : Z) used (op : Operation) st dest st' :
  place used op st dest = Ok st' → dest ∈ used →
  transfers_paired first st ∧ confined used st →
  transfers_paired first st' ∧ confined used st'.
Proof.
  unfold place. intros (r & Hr & [= <-])%bind_Ok Hd Hinv.
  destruct (rewrite_operands_inv first _ _ _ _ _ _ Hr Hd Hinv) as [Hp Hc].
  split; [by apply append_Copy_paired | by apply append_confined].
Qed.

Lemma place_all_inv (first : Z) used (op : Operation) dests st st' :
  place_all used op st dests = Ok st' → (∀ d, d ∈ dests → d ∈ used) →
  transfers_paired first st ∧ confined used st →
  transfers_paired first st' ∧ confined used st'.
Proof.
  revert st. induction dests as [| d dests IH]; intros st; simpl.
  - by intros [= <-].
  - intros (st1 & H1 & Hrest)%bind_Ok Hsub Hinv.
    apply (IH _ Hrest); [intros d' Hd'; apply Hsub; by right |].
    eapply place_inv; [done | apply Hsub; by left | done].
Qed.

Lemma destinations_used used (op : Operation) dests :
  destinations used op = Ok dests → ∀ d, d ∈ dests → d ∈ used.
Proof.
  unfold destinations.
  destruct (op_device op) eqn:Hdev; try done;
    try (case_bool_decide; [| done]; intros [= <-] d ->%list_elem_of_singleton;
         done).
  by intros [= <-].
Qed.

Lemma partition_ops_inv (first : Z) used (ops : list Operation) st st' :
  partition_ops used st ops = Ok st' →
  transfers_paired first st ∧ confined used st →
  transfers_paired first st' ∧ confined used st'.
Proof.
  revert st. induction ops as [| op ops IH]; intros st; simpl.
  - by intros [= <-].
  - intros (st1 & (dests & Hd & Hp)%bind_Ok & Hrest)%bind_Ok Hinv.
    apply (IH _ Hrest).
    eapply place_all_inv; [done | by eapply destinations_used | done].
Qed.

Lemma initial_inv (first : Z) used :
  transfers_paired first (initial first) ∧ confined used (initial first).
Proof.
  split; [| done].
  split; [simpl; lia | ..]; intros;
    match goal with
    | H : _ !! _ = Some _ |- _ => simpl in H; by rewrite lookup_nil in H
    end.
Qed.

Lemma extract_map (G : DeviceType → list Node) used d :
  extractFunctionForDevice (map (λ d, (d, G d)) used) d
  = if bool_decide (d ∈ used) then G d else [].
Proof.
  unfold extractFunctionForDevice.
  induction used as [| a used IH]; simpl; [done |].
  destruct (decide (a = d)) as [-> | Hne].
  - rewrite !bool_decide_true; [done | by left | done].
  - rewrite (bool_decide_false (a = d)) by done. rewrite IH.
    destruct (decide (d ∈ used)) as [Hin | Hnin].
    + rewrite !bool_decide_true; [done | by right | done].
    + rewrite !bool_decide_false; [done | | done].
      rewrite not_elem_of_cons. split; [congruence | done].
Qed.

Lemma extract_confined used st d :
  confined used st →
  extractFunctionForDevice (map (λ d, (d, subgraphs st d)) used) d
  = subgraphs st d.
Proof.
  intros Hc. rewrite extract_map. case_bool_decide; [done |].
  symmetry. by apply Hc.
Qed.

(** What a session that returns has done. *)
Lemma partition_Ok (ops : list Operation) (deviceInfo : GraphFunctionDeviceInfo)
    (nextId : Z) (out : list (DeviceType * list Node)) (nextId' : Z) :
  partition ops deviceInfo nextId = Ok (out, nextId') →
  ∃ st,
    nextTensorTransferId st = nextId' ∧
    transfers_paired nextId st ∧
    ∀ d, extractFunctionForDevice out d = subgraphs st d.
Proof.
  unfold partition.
  destruct (iterate (getUsedDeviceTypes deviceInfo)) as [used [[] | f]];
    [| done].
  intros (st & Hops & [= <- <-])%bind_Ok.
  destruct (partition_ops_inv nextId used ops _ _ Hops (initial_inv _ _))
    as [Hp Hc].
  exists st. split; [done |]. split; [done |].
  intros d. by apply extract_confined.
Qed.

End PartitionerFacts.

(** C7. In a partitioning session, every send that was inserted carries a
    transfer id allocated from the shared counter during the session; the
    receives carrying that id are exactly one, which sits in the subgraph
    of the send's destination, receives the value sent and names the send's
    subgraph as its source; and no other send carries the same id. *)
Theorem C7_transfer_pairing (ops : list Operation)
    (deviceInfo : GraphFunctionDeviceInfo) (nextId : Z)
    (out : list (DeviceType * list Node)) (nextId' : Z) :
  partition ops deviceInfo nextId = Ok (out, nextId') →
  ∀ (src : DeviceType) (i : nat) (v : ValueId) (t : Z) (dest : DeviceType)
    (sh : option string),
    extractFunctionForDevice out src !! i = Some (Send v t dest sh) →
    nextId ≤ t < nextId' ∧
    (∃ j,
       extractFunctionForDevice out dest !! j = Some (Recv v t src sh) ∧
       ∀ d' j' v' src' sh',
         extractFunctionForDevice out d' !! j' = Some (Recv v' t src' sh') →
         d' = dest ∧ j' = j) ∧
    (∀ d' i' v' dest' sh',
       extractFunctionForDevice out d' !! i' = Some (Send v' t dest' sh') →
       d' = src ∧ i' = i).
Proof.
  intros (st & <- & Hp & Hout)%partition_Ok src i v t dest sh.
  rewrite Hout. intros Hsend. split; [| split].
  - by eapply send_allocated.
  - destruct (send_matched _ _ Hp _ _ _ _ _ _ Hsend) as [j Hj].
    exists j. rewrite Hout. split; [done |].
    intros d' j' v' src' sh'. rewrite Hout. intros Hrecv.
    destruct (recv_unique _ _ Hp _ _ _ _ _ _ _ _ _ _ _ Hrecv Hj); done.
  - intros d' i' v' dest' sh'. rewrite Hout. intros Hsend'.
    destruct (send_unique _ _ Hp _ _ _ _ _ _ _ _ _ _ _ Hsend' Hsend); done.
Qed.

Lemma C7_transfer_pairing_witness :
  let a := {| op_type := "Const"; op_result := 0%nat; op_device := CPU;
              op_operands := []; op_shapes := None |} in
  let b := {| op_type := "Neg"; op_result := 1%nat; op_device := GPU;
              op_operands := [0%nat]; op_shapes := None |} in
  let out := [(CPU, [Copy a []; Send 0%nat 1 GPU None]);
              (GPU, [Recv 0%nat 1 CPU None; Copy b [Received 1]])] in
  1 ≤ 1 < 2 ∧
  (∃ j,
     extractFunctionForDevice out GPU !! j = Some (Recv 0%nat 1 CPU None) ∧
     ∀ d' j' v' src' sh',
       extractFunctionForDevice out d' !! j' = Some (Recv v' 1 src' sh') →
       d' = GPU ∧ j' = j) ∧
  (∀ d' i' v' dest' sh',
     extractFunctionForDevice out d' !! i' = Some (Send v' 1 dest' sh') →
     d' = CPU ∧ i' = 1%nat).
Proof.
  intros a b out.
  apply (C7_transfer_pairing [a; b]
           {| primaryDeviceType := CPU; isTPUInfeedEnabled := false;
              numUsedDeviceTypes := 2;
              usedDeviceTypes := [false; true; true; false; false] |}
           1 out 2);
    reflexivity.
Defined.

(** ** Further properties: the device catalog *)

(** X1. Whatever string [getOpDeviceType] accepts, the device type it
    returns is never INVALID and [getDeviceString] maps it back to that very
    string. *)
Theorem X1_string_roundtrip (s : string) (k : DeviceType) :
  getOpDeviceType s = Ok k →
  k ≠ INVALID ∧ getDeviceString k = Ok s.
Proof.
  intros H. pose proof (getOpDeviceType_Ok s k H) as Hs. split; [| done].
  intros ->. discriminate Hs.
Qed.

Lemma X1_string_roundtrip_witness :
  GPU ≠ INVALID ∧ getDeviceString GPU = Ok "/device:GPU:0".
Proof. apply (X1_string_roundtrip "/device:GPU:0" GPU). reflexivity. Defined.

(** X2. Distinct device types never share a device string, nor a short
    name: both conversions are injective where they return. *)
Theorem X2_names_injective (k1 k2 : DeviceType) (s : string) :
  (getDeviceString k1 = Ok s → getDeviceString k2 = Ok s → k1 = k2) ∧
  (getDeviceShortName k1 = Ok s → getDeviceShortName k2 = Ok s → k1 = k2).
Proof.
  split; destruct k1, k2; simpl; intros H1 H2; try done;
    rewrite <- H2 in H1; discriminate H1.
Qed.

Lemma X2_names_injective_witness :
  getDeviceShortName TPU = Ok "TPU" ∧ TPU = TPU.
Proof.
  split; [reflexivity |].
  apply (proj2 (X2_names_injective TPU TPU "TPU")); reflexivity.
Defined.

(** X3. [NUM_DEVICE_TYPES] is in sync with the enumeration: the index of
    every enumerator is below it and casts back to the enumerator, and
    every index below it is the index of exactly one enumerator. *)
Theorem X3_enum_in_sync :
  (∀ d, 0 ≤ to_unsigned d < NUM_DEVICE_TYPES ∧
        of_unsigned (to_unsigned d) = Some d) ∧
  (∀ i, 0 ≤ i < NUM_DEVICE_TYPES →
        ∃ d, of_unsigned i = Some d ∧ to_unsigned d = i) ∧
  (∀ i d, of_unsigned i = Some d → to_unsigned d = i).
Proof.
  split; [| split].
  - intros d. split; [apply to_unsigned_range | apply of_to_unsigned].
  - unfold NUM_DEVICE_TYPES. intros i Hi.
    assert (i = 0 ∨ i = 1 ∨ i = 2 ∨ i = 3 ∨ i = 4) as
      [-> | [-> | [-> | [-> | ->]]]] by lia; eexists; split; reflexivity.
  - intros i d. unfold of_unsigned.
    destruct i as [| [[[] | [] |] | [[] | [] |] |] |]; intros [= <-]; done.
Qed.

Lemma X3_enum_in_sync_witness :
  ∃ d, of_unsigned 3 = Some d ∧ to_unsigned d = 3.
Proof.
  apply (proj1 (proj2 X3_enum_in_sync) 3). unfold NUM_DEVICE_TYPES. lia.
Defined.

(** ** Further properties: construction and marking *)

Section MarkingFacts.

Implicit Types (info : GraphFunctionDeviceInfo) (d k : DeviceType).
Implicit Types (devices : list DeviceType).

Lemma markDeviceUsed_five k (p : DeviceType) (e : bool) (n : Z)
    (b0 b1 b2 b3 b4 : bool) :
  k ≠ INVALID →
  ∃ info',
    markDeviceUsed k
      {| primaryDeviceType := p; isTPUInfeedEnabled := e;
         numUsedDeviceTypes := n; usedDeviceTypes := [b0; b1; b2; b3; b4] |}
    = Ok info' ∧
    length (usedDeviceTypes info') = Z.to_nat NUM_DEVICE_TYPES.
Proof.
  intros Hk. destruct k; [done | ..]; try destruct b1; try destruct b2;
    try destruct b3; eexists; split; reflexivity.
Qed.

Lemma markDeviceUsed_length k info info' :
  markDeviceUsed k info = Ok info' →
  length (usedDeviceTypes info') = length (usedDeviceTypes info).
Proof.
  intros (_ & [[_ ->] | (_ & _ & ->)])%markDeviceUsed_Ok; [done |].
  simpl. apply length_insert.
Qed.

Lemma markDevicesUsed_INVALID devices info :
  length (usedDeviceTypes info) = Z.to_nat NUM_DEVICE_TYPES →
  INVALID ∈ devices →
  markDevicesUsed devices info
  = Fail (AssertionFailed "device != DeviceType::INVALID").
Proof.
  revert info. induction devices as [| k devices IH]; intros info Hlen Hin.
  - by apply elem_of_nil in Hin.
  - destruct (decide (k = INVALID)) as [-> | Hk]; [reflexivity |].
    apply elem_of_cons in Hin as [Hin | Hin]; [congruence |].
    destruct info as [p e n used]. simpl in Hlen.
    destruct (array_five _ Hlen) as (b0 & b1 & b2 & b3 & b4 & ->).
    destruct (markDeviceUsed_five k p e n b0 b1 b2 b3 b4 Hk)
      as (info' & Hm & Hlen').
    simpl. rewrite Hm. simpl. by apply IH.
Qed.

(** A tracker with five slots is determined by its fields and by which
    indicators are set. *)
Lemma tracker_ext info1 info2 :
  tracker_shape info1 → tracker_shape info2 →
  primaryDeviceType info1 = primaryDeviceType info2 →
  isTPUInfeedEnabled info1 = isTPUInfeedEnabled info2 →
  (∀ d, d ≠ ALL →
        indicator info1 d = Some true ↔ indicator info2 d = Some true) →
  info1 = info2.
Proof.
  intros H1 H2 Hp He Hind.
  assert (usedDeviceTypes info1 = usedDeviceTypes info2) as Hused.
  { pose proof (shape_all _ H1) as Ha1. pose proof (shape_all _ H2) as Ha2.
    pose proof (Hind INVALID) as HI. pose proof (Hind CPU) as HC.
    pose proof (Hind GPU) as HG. pose proof (Hind TPU) as HT.
    unfold indicator in *.
    destruct (array_five _ (shape_length _ H1)) as (a0 & a1 & a2 & a3 & a4 & E1).
    destruct (array_five _ (shape_length _ H2)) as (c0 & c1 & c2 & c3 & c4 & E2).
    rewrite E1, E2 in *. simpl in *.
    assert (∀ x y : bool, (Some x = Some true ↔ Some y = Some true) → x = y)
      as Hb by (intros [] [] [Hxy Hyx]; try done;
                [by specialize (Hxy eq_refl) | by specialize (Hyx eq_refl)]).
    f_equal; [apply Hb, HI; done |].
    f_equal; [apply Hb, HC; done |].
    f_equal; [apply Hb, HG; done |].
    f_equal; [apply Hb, HT; done |].
    congruence. }
  pose proof (shape_count _ H1) as Hc1. pose proof (shape_count _ H2) as Hc2.
  destruct info1, info2; simpl in *. congruence.
Qed.

End MarkingFacts.

(** X4. The constructor returns exactly when the primary device is not ALL;
    the tracker it returns has five slots, of which only the primary's is
    set, and a count of one. *)
Theorem X4_construct (primary : DeviceType) (infeed : bool) :
  (succeeds (construct primary infeed) ↔ primary ≠ ALL) ∧
  ∀ info, construct primary infeed = Ok info →
    primaryDeviceType info = primary ∧
    isTPUInfeedEnabled info = infeed ∧
    numUsedDeviceTypes info = 1 ∧
    length (usedDeviceTypes info) = Z.to_nat NUM_DEVICE_TYPES ∧
    ∀ d, indicator info d = Some (bool_decide (d = primary)).
Proof.
  split.
  - split.
    + intros [info [Hne _]%construct_Ok]. done.
    + intros Hne. eexists. apply construct_Ok. done.
  - intros info [Hne ->]%construct_Ok. simpl. repeat split; [by destruct primary |].
    intros d. unfold indicator. simpl. by destruct primary, d.
Qed.

Lemma X4_construct_witness :
  let info := {| primaryDeviceType := TPU; isTPUInfeedEnabled := true;
                 numUsedDeviceTypes := 1;
                 usedDeviceTypes := [false; false; false; true; false] |} in
  primaryDeviceType info = TPU ∧
  isTPUInfeedEnabled info = true ∧
  numUsedDeviceTypes info = 1 ∧
  length (usedDeviceTypes info) = Z.to_nat NUM_DEVICE_TYPES ∧
  indicator info GPU = Some (bool_decide (GPU = TPU)).
Proof.
  intros info.
  destruct (proj2 (X4_construct TPU true) info eq_refl)
    as (H1 & H2 & H3 & H4 & H5).
  exact (conj H1 (conj H2 (conj H3 (conj H4 (H5 GPU))))).
Defined.

(** X5. [markDeviceUsed] is idempotent: marking again the device type that
    a successful call has just marked returns the same state. *)
Theorem X5_mark_idempotent (k : DeviceType) (info info' : GraphFunctionDeviceInfo) :
  markDeviceUsed k info = Ok info' →
  markDeviceUsed k info' = Ok info'.
Proof.
  intros H.
  destruct (markDeviceUsed_Ok _ _ _ H) as
    (Hk & [[[-> | Hset] ->] | (Hall & Hclear & ->)]).
  - reflexivity.
  - by apply markDeviceUsed_already.
  - apply markDeviceUsed_already; [done |].
    unfold indicator in *; simpl. apply list_lookup_insert_eq.
    by eapply lookup_lt_Some.
Qed.

Lemma X5_mark_idempotent_witness :
  markDeviceUsed GPU
    {| primaryDeviceType := CPU; isTPUInfeedEnabled := false;
       numUsedDeviceTypes := 2;
       usedDeviceTypes := [false; true; true; false; false] |}
  = Ok {| primaryDeviceType := CPU; isTPUInfeedEnabled := false;
          numUsedDeviceTypes := 2;
          usedDeviceTypes := [false; true; true; false; false] |}.
Proof.
  apply (X5_mark_idempotent GPU
           {| primaryDeviceType := CPU; isTPUInfeedEnabled := false;
              numUsedDeviceTypes := 1;
              usedDeviceTypes := [false; true; false; false; false] |}).
  reflexivity.
Defined.

(** X6. On a tracker with five slots, two calls of [markDeviceUsed] commute:
    either order returns the same state, or fails the same assertion. *)
Theorem X6_mark_commute (k1 k2 : DeviceType) (info : GraphFunctionDeviceInfo) :
  length (usedDeviceTypes info) = Z.to_nat NUM_DEVICE_TYPES →
  (markDeviceUsed k1 info ≫= markDeviceUsed k2)
  = (markDeviceUsed k2 info ≫= markDeviceUsed k1).
Proof.
  destruct info as [p e n used]. simpl.
  intros (b0 & b1 & b2 & b3 & b4 & ->)%array_five.
  destruct k1, k2; try reflexivity;
    destruct b1; try reflexivity;
    destruct b2; try reflexivity;
    destruct b3; reflexivity.
Qed.

Lemma X6_mark_commute_witness :
  (markDeviceUsed TPU
     {| primaryDeviceType := CPU; isTPUInfeedEnabled := false;
        numUsedDeviceTypes := 1;
        usedDeviceTypes := [false; true; false; false; false] |}
   ≫= markDeviceUsed GPU)
  = (markDeviceUsed GPU
       {| primaryDeviceType := CPU; isTPUInfeedEnabled := false;
          numUsedDeviceTypes := 1;
          usedDeviceTypes := [false; true; false; false; false] |}
     ≫= markDeviceUsed TPU).
Proof.
  apply (X6_mark_commute TPU GPU). reflexivity.
Defined.

(** X7. A successful [markDeviceUsed] never clears an indicator and leaves
    the primary device, the infeed flag and the number of slots as they
    were. *)
Theorem X7_mark_monotone (k d : DeviceType)
    (info info' : GraphFunctionDeviceInfo) :
  markDeviceUsed k info = Ok info' →
  primaryDeviceType info' = primaryDeviceType info ∧
  isTPUInfeedEnabled info' = isTPUInfeedEnabled info ∧
  length (usedDeviceTypes info') = length (usedDeviceTypes info) ∧
  (indicator info d = Some true → indicator info' d = Some true).
Proof.
  intros H. split; [by eapply markDeviceUsed_primary |].
  split; [| split; [by eapply markDeviceUsed_length |]].
  - destruct (markDeviceUsed_Ok _ _ _ H) as (_ & [[_ ->] | (_ & _ & ->)]); done.
  - destruct (markDeviceUsed_Ok _ _ _ H) as
      (_ & [[_ ->] | (_ & Hclear & ->)]); [done |].
    unfold indicator in *; simpl. intros Hd.
    rewrite list_lookup_insert_ne; [done |]. congruence.
Qed.

Lemma X7_mark_monotone_witness :
  indicator
    {| primaryDeviceType := CPU; isTPUInfeedEnabled := false;
       numUsedDeviceTypes := 2;
       usedDeviceTypes := [false; true; true; false; false] |} CPU
  = Some true.
Proof.
  refine (proj2 (proj2 (proj2
    (X7_mark_monotone GPU CPU
       {| primaryDeviceType := CPU; isTPUInfeedEnabled := false;
          numUsedDeviceTypes := 1;
          usedDeviceTypes := [false; true; false; false; false] |}
       _ eq_refl))) eq_refl).
Defined.

(** X8. In every reachable state the counter lies between 1 and 4, and
    between 1 and 3 when the primary device is not INVALID: the increment
    of [markDeviceUsed] never wraps around. *)
Theorem X8_counter_bounds (info : GraphFunctionDeviceInfo) :
  reachable info →
  1 ≤ numUsedDeviceTypes info ≤ 4 ∧
  (primaryDeviceType info ≠ INVALID → numUsedDeviceTypes info ≤ 3).
Proof.
  intros Hs%reachable_shape.
  destruct (array_five _ (shape_length _ Hs)) as (b0 & b1 & b2 & b3 & b4 & Ha).
  pose proof (shape_all _ Hs) as Hall.
  pose proof (shape_primary _ Hs) as Hprim.
  pose proof (shape_invalid _ Hs) as Hinv.
  rewrite (shape_count _ Hs).
  unfold indicator in *. rewrite Ha in *. injection Hall as ->.
  split.
  - destruct b0, b1, b2, b3;
      try (vm_compute; split; intros ?; discriminate).
    destruct (primaryDeviceType info); discriminate Hprim.
  - intros Hp. specialize (Hinv Hp). injection Hinv as ->.
    destruct b1, b2, b3; vm_compute; intros ?; discriminate.
Qed.

Lemma X8_counter_bounds_witness :
  1 ≤ 2 ≤ 4 ∧ (CPU ≠ INVALID → 2 ≤ 3).
Proof.
  apply (X8_counter_bounds
           {| primaryDeviceType := CPU; isTPUInfeedEnabled := false;
              numUsedDeviceTypes := 2;
              usedDeviceTypes := [false; true; false; true; false] |}).
  apply (reachable_mark TPU
           {| primaryDeviceType := CPU; isTPUInfeedEnabled := false;
              numUsedDeviceTypes := 1;
              usedDeviceTypes := [false; true; false; false; false] |});
    [| reflexivity].
  apply (reachable_construct CPU false). reflexivity.
Defined.

(** X9. A session returns exactly when the primary device is not ALL and
    INVALID is not among the marked device types. *)
Theorem X9_session_succeeds_iff (primary : DeviceType) (infeed : bool)
    (devices : list DeviceType) :
  succeeds (session primary infeed devices) ↔
  primary ≠ ALL ∧ INVALID ∉ devices.
Proof.
  split; [| intros [Hp Hni]; by apply session_succeeds].
  intros [info Hs]. unfold session in Hs.
  apply bind_Ok in Hs as (info0 & Hc & Hm).
  split; [by apply construct_Ok in Hc as [Hne _] |].
  intros Hin.
  rewrite markDevicesUsed_INVALID in Hm; [done | | done].
  apply (shape_length _ (construct_shape _ _ _ Hc)).
Qed.

(** X10. The state a session ends in depends only on which device types
    were marked, not on their order or on repetitions; sessions over the
    same set of device types also fail alike. *)
Theorem X10_session_set (primary : DeviceType) (infeed : bool)
    (devices1 devices2 : list DeviceType) :
  (∀ d, d ∈ devices1 ↔ d ∈ devices2) →
  session primary infeed devices1 = session primary infeed devices2.
Proof.
  intros Hset.
  destruct (decide (primary = ALL)) as [-> | Hp]; [reflexivity |].
  destruct (decide (INVALID ∈ devices1)) as [Hin | Hni].
  - unfold session.
    destruct (construct primary infeed) as [info0 | f] eqn:Hc; [| reflexivity].
    simpl. pose proof (shape_length _ (construct_shape _ _ _ Hc)) as Hlen.
    rewrite !markDevicesUsed_INVALID; [done | done | by apply Hset | done | done].
  - assert (INVALID ∉ devices2) as Hni2 by (by rewrite <- Hset).
    destruct (session_succeeds primary infeed devices1 Hp Hni) as [i1 H1].
    destruct (session_succeeds primary infeed devices2 Hp Hni2) as [i2 H2].
    rewrite H1, H2. f_equal.
    destruct (session_Ok _ _ _ _ H1) as (Hr1 & Hp1 & Hind1).
    destruct (session_Ok _ _ _ _ H2) as (Hr2 & Hp2 & Hind2).
    apply tracker_ext; [by apply reachable_shape | by apply reachable_shape
                        | congruence | | ].
    + unfold session in H1, H2.
      apply bind_Ok in H1 as (j1 & [_ ->]%construct_Ok & Hm1).
      apply bind_Ok in H2 as (j2 & [_ ->]%construct_Ok & Hm2).
      clear -Hm1 Hm2.
      assert (∀ devices a b, markDevicesUsed devices a = Ok b →
                isTPUInfeedEnabled b = isTPUInfeedEnabled a) as Hkeep.
      { induction devices as [| k devices IH]; intros a b; simpl.
        - by intros [= <-].
        - intros (c & Hc & Hrest)%bind_Ok. rewrite (IH _ _ Hrest).
          destruct (markDeviceUsed_Ok _ _ _ Hc)
            as (_ & [[_ ->] | (_ & _ & ->)]); done. }
      rewrite (Hkeep _ _ _ Hm1), (Hkeep _ _ _ Hm2). done.
    + intros d Hd. rewrite (Hind1 d Hd), (Hind2 d Hd), !elem_of_cons, Hset.
      done.
Qed.

Lemma X10_session_set_witness :
  session CPU false [TPU; GPU; TPU; ALL] = session CPU false [ALL; GPU; TPU].
Proof.
  apply (X10_session_set CPU false [TPU; GPU; TPU; ALL] [ALL; GPU; TPU]).
  intros d. rewrite !elem_of_cons, !elem_of_nil. tauto.
Defined.

(** ** Further properties: the iterator *)

Section IncrementFacts.

Implicit Types (used : list bool) (idx j : Z).

(** Where the loop of [operator++] stops when it does not wrap around. *)
Lemma increment_loop_next (fuel : nat) used idx j :
  0 ≤ idx < UINT_MAX →
  increment_loop fuel used idx = Ok j →
  idx < j ∧
  (∀ k, idx < k < j → read used k = Ok false) ∧
  (j < NUM_DEVICE_TYPES →
   read used j = Ok true ∧ of_unsigned j ≠ Some INVALID
   ∧ of_unsigned j ≠ Some ALL) ∧
  (NUM_DEVICE_TYPES ≤ j → j = Z.max (idx + 1) NUM_DEVICE_TYPES).
Proof.
  revert idx. induction fuel as [| fuel IH]; intros idx Hidx; [done |].
  rewrite increment_loop_unfold. cbv zeta.
  rewrite (wrap32_small (idx + 1)) by lia.
  case_bool_decide as Hlt.
  - destruct (read used (idx + 1)) as [[] | f] eqn:Hread; simpl; [| | done].
    + unfold assert.
      repeat case_bool_decide; simpl; try (intros Hf; discriminate Hf).
      intros [= <-]. split; [lia |]. split; [intros k Hk; lia |].
      split; [done |]. unfold NUM_DEVICE_TYPES in *. lia.
    + intros Hj.
      destruct (IH (idx + 1)) as (H1 & H2 & H3 & H4);
        [unfold NUM_DEVICE_TYPES, UINT_MAX in *; lia | done |].
      split; [lia |]. split; [| split; [done |]].
      * intros k Hk. destruct (decide (k = idx + 1)) as [-> | Hne]; [done |].
        apply H2. lia.
      * intros Hge. rewrite (H4 Hge). unfold NUM_DEVICE_TYPES in *. lia.
  - intros [= <-]. split; [lia |]. split; [intros k Hk; lia |].
    split; [done |]. unfold NUM_DEVICE_TYPES in *. lia.
Qed.

Lemma of_unsigned_inv (i : Z) (d : DeviceType) :
  of_unsigned i = Some d → to_unsigned d = i.
Proof.
  unfold of_unsigned.
  destruct i as [| [[[] | [] |] | [[] | [] |] |] |]; intros [= <-]; done.
Qed.

Lemma begin_unfold used :
  begin {| mgr_usedDeviceTypes := used |}
  = pre_increment {| it_usedDeviceTypes := used; deviceIdx := 0 |}.
Proof. reflexivity. Qed.

Lemma end_unfold used :
  end_ {| mgr_usedDeviceTypes := used |}
  = Ok {| it_usedDeviceTypes := used; deviceIdx := NUM_DEVICE_TYPES |}.
Proof. reflexivity. Qed.

End IncrementFacts.

(** X11. When [operator++] returns without wrapping around, the iterator
    has moved forward over the same array, every slot it stepped over is
    clear, and it stands either on a set slot that is neither INVALID nor
    ALL, or at [end()] (or one past its start, if that was at or beyond the
    last slot). *)
Theorem X11_pre_increment_next (it it' : iterator) :
  0 ≤ deviceIdx it < UINT_MAX →
  pre_increment it = Ok it' →
  it_usedDeviceTypes it' = it_usedDeviceTypes it ∧
  deviceIdx it < deviceIdx it' ∧
  (∀ k, deviceIdx it < k < deviceIdx it' →
        read (it_usedDeviceTypes it) k = Ok false) ∧
  (deviceIdx it' < NUM_DEVICE_TYPES →
   read (it_usedDeviceTypes it) (deviceIdx it') = Ok true ∧
   ∃ d, deref it' = Some d ∧ d ≠ INVALID ∧ d ≠ ALL) ∧
  (NUM_DEVICE_TYPES ≤ deviceIdx it' →
   deviceIdx it' = Z.max (deviceIdx it + 1) NUM_DEVICE_TYPES).
Proof.
  intros Hidx. unfold pre_increment.
  intros (j & Hj & [= <-])%bind_Ok. simpl.
  destruct (increment_loop_next _ _ _ _ Hidx Hj) as (H1 & H2 & H3 & H4).
  split; [done |]. split; [done |]. split; [done |]. split; [| done].
  intros Hlt. destruct (H3 Hlt) as (Hr & HI & HA). split; [done |].
  unfold deref; simpl. unfold NUM_DEVICE_TYPES in Hlt.
  assert (j = 1 ∨ j = 2 ∨ j = 3 ∨ j = 4) as [-> | [-> | [-> | ->]]] by lia;
    [by exists CPU | by exists GPU | by exists TPU | done].
Qed.

Lemma X11_pre_increment_next_witness :
  let used := [false; true; false; false; true] in
  pre_increment {| it_usedDeviceTypes := used; deviceIdx := 1 |}
  = Fail (AssertionFailed "ret != DeviceType::ALL") ∧
  pre_increment {| it_usedDeviceTypes := used; deviceIdx := 0 |}
  = Ok {| it_usedDeviceTypes := used; deviceIdx := 1 |} ∧
  (1 < NUM_DEVICE_TYPES →
   read used 1 = Ok true ∧
   ∃ d, deref {| it_usedDeviceTypes := used; deviceIdx := 1 |} = Some d
        ∧ d ≠ INVALID ∧ d ≠ ALL).
Proof.
  intros used. split; [reflexivity |]. split; [reflexivity |].
  refine (proj1 (proj2 (proj2 (proj2
    (X11_pre_increment_next
       {| it_usedDeviceTypes := used; deviceIdx := 0 |}
       {| it_usedDeviceTypes := used; deviceIdx := 1 |} _ eq_refl))))).
  vm_compute. split; [discriminate | reflexivity].
Defined.

(** X12. On an array of five slots, [operator++] from an index that does
    not wrap around returns when the slot of ALL is clear; when it fails,
    it fails the assertion that excludes ALL, and the slot of ALL is set. *)
Theorem X12_pre_increment_outcome (used : list bool) (idx : Z) :
  length used = Z.to_nat NUM_DEVICE_TYPES →
  0 ≤ idx < UINT_MAX →
  (used !! Z.to_nat (to_unsigned ALL) = Some false →
   succeeds (pre_increment {| it_usedDeviceTypes := used; deviceIdx := idx |})) ∧
  (∀ f, pre_increment {| it_usedDeviceTypes := used; deviceIdx := idx |} = Fail f →
        f = AssertionFailed "ret != DeviceType::ALL" ∧
        used !! Z.to_nat (to_unsigned ALL) = Some true).
Proof.
  intros (b0 & b1 & b2 & b3 & b4 & ->)%array_five Hidx.
  unfold pre_increment, increment_fuel, succeeds. simpl it_usedDeviceTypes.
  simpl deviceIdx. change (Z.to_nat NUM_DEVICE_TYPES) with 5%nat.
  rewrite increment_loop_unfold. cbv zeta.
  rewrite (wrap32_small (idx + 1)) by lia.
  assert (1 ≤ idx + 1) as Hj by lia. revert Hj.
  generalize (idx + 1). clear idx Hidx. intros j Hj.
  destruct (decide (j < NUM_DEVICE_TYPES)) as [Hlt | Hge].
  - unfold NUM_DEVICE_TYPES in Hlt.
    assert (j = 1 ∨ j = 2 ∨ j = 3 ∨ j = 4) as Hcases by lia.
    destruct Hcases as [-> | [-> | [-> | ->]]];
      destruct b1, b2, b3, b4; (split;
        [intros Hclear; first [discriminate Hclear | eexists; reflexivity]
        | intros f Hf; first [discriminate Hf | by injection Hf as <-]]).
  - rewrite bool_decide_false by done. split; [by eexists | done].
Qed.

Lemma X12_pre_increment_outcome_witness :
  succeeds (pre_increment
              {| it_usedDeviceTypes := [true; false; false; true; false];
                 deviceIdx := 1 |}).
Proof.
  refine (proj1 (X12_pre_increment_outcome
                   [true; false; false; true; false] 1 eq_refl _) eq_refl).
  vm_compute. split; [discriminate | reflexivity].
Defined.

(** X13. Incrementing an iterator that stands on the last slot, at [end()]
    or beyond reads no slot and fails no assertion: it moves one index
    further, past [end()], whatever the array holds. *)
Theorem X13_increment_past_end (used : list bool) (idx : Z) :
  NUM_DEVICE_TYPES - 1 ≤ idx < UINT_MAX →
  pre_increment {| it_usedDeviceTypes := used; deviceIdx := idx |}
  = Ok {| it_usedDeviceTypes := used; deviceIdx := idx + 1 |}.
Proof.
  intros Hidx. unfold pre_increment, increment_fuel. simpl it_usedDeviceTypes.
  simpl deviceIdx. change (Z.to_nat NUM_DEVICE_TYPES) with 5%nat.
  rewrite increment_loop_unfold. cbv zeta.
  unfold NUM_DEVICE_TYPES in *.
  rewrite (wrap32_small (idx + 1)) by lia.
  rewrite bool_decide_false by lia. reflexivity.
Qed.

Lemma X13_increment_past_end_witness :
  pre_increment {| it_usedDeviceTypes := [false; true; true; true; true];
                   deviceIdx := 5 |}
  = Ok {| it_usedDeviceTypes := [false; true; true; true; true];
          deviceIdx := 5 + 1 |}.
Proof.
  apply (X13_increment_past_end [false; true; true; true; true] 5).
  vm_compute. split; [discriminate | reflexivity].
Defined.

(** X14. A range-based [for] over any array of five slots yields the set
    slots of CPU, GPU and TPU in this order; it runs to [end()] when the
    slot of ALL is clear and stops on the assertion that excludes ALL when
    that slot is set; and the slot of INVALID has no influence on it. *)
Theorem X14_iterate_five_slots (used : list bool) :
  length used = Z.to_nat NUM_DEVICE_TYPES →
  (iterate {| mgr_usedDeviceTypes := used |}).1 = selected used ∧
  (used !! Z.to_nat (to_unsigned ALL) = Some false →
   (iterate {| mgr_usedDeviceTypes := used |}).2 = Ok tt) ∧
  (used !! Z.to_nat (to_unsigned ALL) = Some true →
   (iterate {| mgr_usedDeviceTypes := used |}).2
   = Fail (AssertionFailed "ret != DeviceType::ALL")) ∧
  (∀ b, iterate {| mgr_usedDeviceTypes :=
                     <[Z.to_nat (to_unsigned INVALID) := b]> used |}
        = iterate {| mgr_usedDeviceTypes := used |}).
Proof.
  intros (b0 & b1 & b2 & b3 & b4 & ->)%array_five.
  rewrite iterate_five. simpl.
  split; [done |]. split; [by intros [= ->] |]. split; [by intros [= ->] |].
  intros b.
  change (<[0%nat := b]> [b0; b1; b2; b3; b4]) with [b; b1; b2; b3; b4].
  rewrite !iterate_five. by destruct b, b0, b1, b2, b3, b4.
Qed.

Lemma X14_iterate_five_slots_witness :
  (iterate {| mgr_usedDeviceTypes := [true; false; true; true; true] |}).1
  = [GPU; TPU] ∧
  (iterate {| mgr_usedDeviceTypes := [true; false; true; true; true] |}).2
  = Fail (AssertionFailed "ret != DeviceType::ALL").
Proof.
  pose proof (X14_iterate_five_slots [true; false; true; true; true] eq_refl)
    as (H1 & _ & H3 & _).
  split; [exact H1 | exact (H3 eq_refl)].
Defined.

(** X15. For an array of any size, the iterator [begin()] returns never
    stands on index 0: it stands on the first set slot after it, or at
    [end()], and it equals [end()] exactly when every slot after index 0 is
    clear. *)
Theorem X15_begin_first_set (used : list bool) (it : iterator) :
  begin {| mgr_usedDeviceTypes := used |} = Ok it →
  1 ≤ deviceIdx it ≤ NUM_DEVICE_TYPES ∧
  deref it ≠ Some INVALID ∧
  (∀ k, 0 < k < deviceIdx it → read used k = Ok false) ∧
  (deviceIdx it < NUM_DEVICE_TYPES → read used (deviceIdx it) = Ok true) ∧
  (end_ {| mgr_usedDeviceTypes := used |} = Ok it ↔
   ∀ k, 0 < k < NUM_DEVICE_TYPES → read used k = Ok false).
Proof.
  rewrite begin_unfold, end_unfold. unfold pre_increment.
  cbn [it_usedDeviceTypes deviceIdx].
  intros (j & Hj & [= <-])%bind_Ok. cbn [it_usedDeviceTypes deviceIdx].
  destruct (increment_loop_next _ _ 0 j ltac:(by vm_compute) Hj)
    as (H1 & H2 & H3 & H4).
  assert (j ≤ NUM_DEVICE_TYPES) as Hle.
  { destruct (decide (j < NUM_DEVICE_TYPES)); [lia |].
    rewrite H4 by lia. unfold NUM_DEVICE_TYPES. lia. }
  split; [lia |]. split; [| split; [done | split]].
  - unfold deref; simpl. intros Hd%of_unsigned_inv. simpl in Hd. lia.
  - intros Hlt. apply (H3 Hlt).
  - split.
    + intros [= <-]. exact H2.
    + intros Hclear. f_equal. f_equal.
      destruct (decide (j < NUM_DEVICE_TYPES)) as [Hlt | Hge]; [| lia].
      destruct (H3 Hlt) as [Hset _]. rewrite Hclear in Hset by lia. done.
Qed.

Lemma X15_begin_first_set_witness :
  1 ≤ 3 ≤ NUM_DEVICE_TYPES ∧
  deref {| it_usedDeviceTypes := [true; false; false; true; false];
           deviceIdx := 3 |} ≠ Some INVALID.
Proof.
  pose proof (X15_begin_first_set [true; false; false; true; false]
                {| it_usedDeviceTypes := [true; false; false; true; false];
                   deviceIdx := 3 |} eq_refl) as (H1 & H2 & _).
  split; [exact H1 | exact H2].
Defined.

(** X16. A tracker constructed with INVALID as its primary device counts
    one device more than its iteration yields: the slot of INVALID is
    counted but never yielded. *)
Theorem X16_invalid_primary_count (infeed : bool) (devices : list DeviceType) :
  INVALID ∉ devices →
  ∃ info l,
    session INVALID infeed devices = Ok info ∧
    iterate (getUsedDeviceTypes info) = (l, Ok tt) ∧
    Z.of_nat (length l) = numUsedDeviceTypes info - 1.
Proof.
  intros Hni.
  destruct (session_succeeds INVALID infeed devices) as [info Hs]; [done.. |].
  destruct (session_Ok _ _ _ _ Hs) as (Hr & Hprim & _).
  exists info, (selected (usedDeviceTypes info)).
  split; [done |]. split; [by apply reachable_iterate |].
  pose proof (reachable_shape _ Hr) as Hshape.
  destruct (array_five _ (shape_length _ Hshape))
    as (b0 & b1 & b2 & b3 & b4 & Ha).
  pose proof (shape_all _ Hshape) as Hall.
  pose proof (shape_primary _ Hshape) as Hp.
  rewrite Hprim in Hp. rewrite (shape_count _ Hshape).
  unfold indicator in Hall, Hp. rewrite Ha in Hall, Hp |- *.
  injection Hall as ->. injection Hp as ->.
  by destruct b1, b2, b3.
Qed.

Lemma X16_invalid_primary_count_witness :
  ∃ info l,
    session INVALID false [GPU] = Ok info ∧
    iterate (getUsedDeviceTypes info) = (l, Ok tt) ∧
    Z.of_nat (length l) = numUsedDeviceTypes info - 1.
Proof.
  apply (X16_invalid_primary_count false [GPU]).
  rewrite not_elem_of_cons. split; [discriminate | apply not_elem_of_nil].
Defined.

(** ** Further properties: marking and iteration together *)

(** X17. On a reachable tracker, a successful [markDeviceUsed k] adds [k]
    (unless it is ALL) to what the range-based [for] yields, and changes
    nothing else of it. *)
Theorem X17_mark_then_iterate (k : DeviceType)
    (info info' : GraphFunctionDeviceInfo) :
  reachable info →
  markDeviceUsed k info = Ok info' →
  (iterate (getUsedDeviceTypes info')).2 = Ok tt ∧
  ∀ d, d ∈ (iterate (getUsedDeviceTypes info')).1 ↔
       d ∈ (iterate (getUsedDeviceTypes info)).1 ∨ (d = k ∧ k ≠ ALL).
Proof.
  intros Hr Hm.
  assert (reachable info') as Hr' by (by eapply reachable_mark).
  rewrite !reachable_iterate by done. simpl. split; [done |].
  intros d. rewrite !elem_of_selected.
  destruct (decide (d = ALL)) as [-> | Hd].
  { split; [intros (_ & H & _); done | intros [(_ & H & _) | [<- H]]; done]. }
  pose proof (markDeviceUsed_indicator _ _ _ d Hm Hd) as Hind.
  unfold indicator in Hind. rewrite Hind.
  destruct (markDeviceUsed_Ok _ _ _ Hm) as [Hk _].
  split.
  - intros ([H | ->] & HA & HI); [left | right]; done.
  - intros [(H & HA & HI) | [-> HA]]; (split; [auto | done]).
Qed.

Lemma X17_mark_then_iterate_witness :
  let info := {| primaryDeviceType := CPU; isTPUInfeedEnabled := false;
                 numUsedDeviceTypes := 1;
                 usedDeviceTypes := [false; true; false; false; false] |} in
  let info' := {| primaryDeviceType := CPU; isTPUInfeedEnabled := false;
                  numUsedDeviceTypes := 2;
                  usedDeviceTypes := [false; true; false; true; false] |} in
  (iterate (getUsedDeviceTypes info')).2 = Ok tt ∧
  ∀ d, d ∈ (iterate (getUsedDeviceTypes info')).1 ↔
       d ∈ (iterate (getUsedDeviceTypes info)).1 ∨ (d = TPU ∧ TPU ≠ ALL).
Proof.
  intros info info'. apply (X17_mark_then_iterate TPU info info').
  - apply (reachable_construct CPU false). reflexivity.
  - reflexivity.
Defined.

(** X18. On a reachable tracker whose primary device is not INVALID, the
    range-based [for] yields the primary device: there is always at least
    one used device type to iterate over. *)
Theorem X18_primary_yielded (info : GraphFunctionDeviceInfo) :
  reachable info →
  primaryDeviceType info ≠ INVALID →
  primaryDeviceType info ∈ (iterate (getUsedDeviceTypes info)).1.
Proof.
  intros Hr Hp. rewrite reachable_iterate by done. simpl.
  pose proof (reachable_shape _ Hr) as Hs.
  apply elem_of_selected. split; [apply (shape_primary _ Hs) |].
  split; [| done]. intros Heq.
  pose proof (shape_primary _ Hs) as H1. pose proof (shape_all _ Hs) as H2.
  rewrite Heq in H1. congruence.
Qed.

Lemma X18_primary_yielded_witness :
  GPU ∈ (iterate (getUsedDeviceTypes
                    {| primaryDeviceType := GPU; isTPUInfeedEnabled := false;
                       numUsedDeviceTypes := 1;
                       usedDeviceTypes := [false; false; true; false; false] |})).1.
Proof.
  apply (X18_primary_yielded
           {| primaryDeviceType := GPU; isTPUInfeedEnabled := false;
              numUsedDeviceTypes := 1;
              usedDeviceTypes := [false; false; true; false; false] |}).
  - apply (reachable_construct GPU false). reflexivity.
  - discriminate.
Defined.

(** X19. On an array of five slots with the slot of ALL clear, [end()] is
    reached from [begin()] after exactly as many increments as the
    range-based [for] yields device types, and not before. *)
Theorem X19_end_after_yields (used : list bool) :
  length used = Z.to_nat NUM_DEVICE_TYPES →
  used !! Z.to_nat (to_unsigned ALL) = Some false →
  advance (length (iterate {| mgr_usedDeviceTypes := used |}).1)
    {| mgr_usedDeviceTypes := used |}
  = end_ {| mgr_usedDeviceTypes := used |} ∧
  ∀ n, (n < length (iterate {| mgr_usedDeviceTypes := used |}).1)%nat →
       advance n {| mgr_usedDeviceTypes := used |}
       ≠ end_ {| mgr_usedDeviceTypes := used |}.
Proof.
  intros (b0 & b1 & b2 & b3 & b4 & ->)%array_five [= ->].
  rewrite iterate_five. simpl fst.
  destruct b0, b1, b2, b3; (split; [reflexivity |]);
    intros [| [| [| n]]] Hn; simpl in Hn; try lia; discriminate.
Qed.

Lemma X19_end_after_yields_witness :
  advance 2 {| mgr_usedDeviceTypes := [false; true; false; true; false] |}
  = end_ {| mgr_usedDeviceTypes := [false; true; false; true; false] |}.
Proof.
  exact (proj1 (X19_end_after_yields [false; true; false; true; false]
                  eq_refl eq_refl)).
Defined.
